(** * Library Management System and To Do App

    A shallow embedding of the classes [Book], [Member] and [Library] of
    "Library Management System.py" and of the classes [Task] and
    [TaskManager] of "To Do App.py" (the third and the fifth program of
    src/Bankingstr.py), with the properties of the issue/return workflow,
    of the catalog and the registry, of the views, and of the task list.
    The other programs of the file compute on floats and are left out.

    Modelling conventions.
    - Python [int] is [Z]; a [dict] is a [gmap]; the [list] of borrowed book
      ids is a [list Z] (order and duplicates matter for [list.remove]).
    - Objects held in the dictionaries are reached only through the
      dictionary, so a method that mutates [self.books[i]] is an update of
      the map at key [i].
    - [datetime.now()] is the only input the methods read from the
      environment. Each method that calls it takes the value read as the
      extra argument [now]. A [datetime] is the number of microseconds since
      a fixed origin (its resolution), a [timedelta] a difference of two of
      them; [timedelta.days] is the floor of the division by one day.
    - [print] calls carry no state and are taken not to fail. The data a
      method prints on each of its branches is kept as an outcome value,
      next to the boolean it returns.
    - Strings are taken to be ASCII; [str.strip], [str.title] and
      [str.lower] are given on that range.
    - The fine [overdue_days * 1.0] is a float product of an integer below
      2^53 with 1.0, which is exact; amounts are kept as integers. *)

From Stdlib Require Import Ascii String Sorted.
From stdpp Require Import gmap strings list fin_maps.

Local Open Scope Z_scope.

(** ** Built-in string methods used by the ledger *)

Module Str.

(** [str.isspace] on one ASCII character: tab, line feed, vertical tab,
    form feed, carriage return, the separators 0x1c-0x1f, and space. *)
Definition isspace (c : ascii) : bool :=
  let n := Z.of_N (N_of_ascii c) in
  ((9 <=? n) && (n <=? 13)) || ((28 <=? n) && (n <=? 32)).

Definition isupper (c : ascii) : bool :=
  let n := Z.of_N (N_of_ascii c) in (65 <=? n) && (n <=? 90).

Definition islower (c : ascii) : bool :=
  let n := Z.of_N (N_of_ascii c) in (97 <=? n) && (n <=? 122).

Definition to_lower (c : ascii) : ascii :=
  if isupper c then ascii_of_N (N_of_ascii c + 32) else c.

Definition to_upper (c : ascii) : ascii :=
  if islower c then ascii_of_N (N_of_ascii c - 32) else c.

Fixpoint lstrip (s : string) : string :=
  match s with
  | EmptyString => EmptyString
  | String c s' => if isspace c then lstrip s' else s
  end.

Fixpoint rstrip (s : string) : string :=
  match s with
  | EmptyString => EmptyString
  | String c s' =>
      match rstrip s' with
      | EmptyString => if isspace c then EmptyString else String c EmptyString
      | r => String c r
      end
  end.

(** [s.strip()] *)
Definition strip (s : string) : string := rstrip (lstrip s).

Fixpoint lower (s : string) : string :=
  match s with
  | EmptyString => EmptyString
  | String c s' => String (to_lower c) (lower s')
  end.

(** [s.title()]: a cased character is upper-cased when the previous
    character is not cased, and lower-cased otherwise. *)
Fixpoint title_from (previous_is_cased : bool) (s : string) : string :=
  match s with
  | EmptyString => EmptyString
  | String c s' =>
      if isupper c || islower c
      then String (if previous_is_cased then to_lower c else to_upper c)
                  (title_from true s')
      else String c (title_from false s')
  end.

Definition title (s : string) : string := title_from false s.

(** Truth value of a string: [not s] holds of the empty string only. *)
Definition is_empty (s : string) : bool :=
  match s with EmptyString => true | String _ _ => false end.

End Str.

(** ** Dates *)

Definition microseconds_per_day : Z := 86400000000.

(** [timedelta(days=d)] *)
Definition timedelta_of_days (d : Z) : Z := d * microseconds_per_day.

(** [delta.days] for a [timedelta] [delta] *)
Definition timedelta_days (delta : Z) : Z := delta `div` microseconds_per_day.

(** ** The record stored in [Book.issued_to] and the result of a return *)

Record IssueRecord := mkIssueRecord {
  member_id : Z;
  member_name : string;
  issue_date : Z;
  due_date : Z
}.

Record ReturnInfo := mkReturnInfo {
  days_borrowed : Z;
  is_overdue : bool;
  overdue_days : Z;
  fine : Z
}.

(** The messages [Book.issue_book] and [Book.return_book] fail with. *)
Definition NoCopiesAvailable : string := "No copies available".
Definition AlreadyBorrowed : string := "Member already has this book".
Definition NotBorrowedByMember : string := "Book not issued to this member".

(** The daily fine, [$1 per day] in [Book.return_book]. *)
Definition daily_fine_rate : Z := 1.

(** The borrowing period of [Book.issue_book], in days. *)
Definition loan_period_days : Z := 14.

(** ** class Book *)

Module Book.

Record t := mk {
  book_id : Z;
  title : string;
  author : string;
  isbn : string;
  total_copies : Z;
  available_copies : Z;
  issued_to : gmap Z IssueRecord
}.

(** [Book(title, author, isbn, copies)]: takes the class attribute
    [Book.book_id_counter] and gives its new value with the object. *)
Definition init (book_id_counter : Z) (title author isbn : string) (copies : Z)
  : Z * t :=
  (book_id_counter + 1,
   {| book_id := book_id_counter; title := title; author := author;
      isbn := isbn; total_copies := copies; available_copies := copies;
      issued_to := ∅ |}).

Definition is_available (self : t) : bool := 0 <? available_copies self.

(** [self.issue_book(member_id, member_name)]: [inl msg] is [(False, msg)],
    [inr r] is [(True, r)]. *)
Definition issue_book (self : t) (member_id : Z) (member_name : string)
    (now : Z) : t * (string + IssueRecord) :=
  if negb (is_available self) then (self, inl NoCopiesAvailable)
  else match issued_to self !! member_id with
  | Some _ => (self, inl AlreadyBorrowed)
  | None =>
      let issue_date := now in
      let due_date := issue_date + timedelta_of_days loan_period_days in
      let issue_record := mkIssueRecord member_id member_name issue_date due_date in
      ({| book_id := book_id self; title := title self; author := author self;
          isbn := isbn self; total_copies := total_copies self;
          available_copies := available_copies self - 1;
          issued_to := <[member_id := issue_record]> (issued_to self) |},
       inr issue_record)
  end.

(** [self.return_book(member_id)]: [inl msg] is [(False, msg, None)],
    [inr info] is [(True, "Book returned successfully", info)]. *)
Definition return_book (self : t) (member_id : Z) (now : Z)
  : t * (string + ReturnInfo) :=
  match issued_to self !! member_id with
  | None => (self, inl NotBorrowedByMember)
  | Some issue_record =>
      let return_date := now in
      let days_borrowed := timedelta_days (return_date - issue_date issue_record) in
      let is_overdue := due_date issue_record <? return_date in
      let overdue_days :=
        if is_overdue then timedelta_days (return_date - due_date issue_record)
        else 0 in
      ({| book_id := book_id self; title := title self; author := author self;
          isbn := isbn self; total_copies := total_copies self;
          available_copies := available_copies self + 1;
          issued_to := delete member_id (issued_to self) |},
       inr {| days_borrowed := days_borrowed; is_overdue := is_overdue;
              overdue_days := overdue_days;
              fine := if is_overdue then overdue_days * daily_fine_rate else 0 |})
  end.

(** The merge of [Library.add_book]: [total_copies += copies] and
    [available_copies += copies]. *)
Definition add_copies (self : t) (copies : Z) : t :=
  {| book_id := book_id self; title := title self; author := author self;
     isbn := isbn self; total_copies := total_copies self + copies;
     available_copies := available_copies self + copies;
     issued_to := issued_to self |}.

End Book.

(** ** class Member *)

(** [l.remove(x)]: drops the first occurrence of [x]. *)
Fixpoint list_remove (x : Z) (l : list Z) : list Z :=
  match l with
  | [] => []
  | y :: l' => if decide (y = x) then l' else y :: list_remove x l'
  end.

(** [l.count(x)] *)
Fixpoint list_count (x : Z) (l : list Z) : nat :=
  match l with
  | [] => O
  | y :: l' => if decide (y = x) then S (list_count x l') else list_count x l'
  end.

Module Member.

Record t := mk {
  member_id : Z;
  name : string;
  email : string;
  borrowed_books : list Z;
  total_fines : Z
}.

(** [Member(name, email)], threading [Member.member_id_counter]. *)
Definition init (member_id_counter : Z) (name email : string) : Z * t :=
  (member_id_counter + 1,
   {| member_id := member_id_counter; name := name; email := email;
      borrowed_books := []; total_fines := 0 |}).

Definition borrow_book (self : t) (book_id : Z) : t :=
  {| member_id := member_id self; name := name self; email := email self;
     borrowed_books := borrowed_books self ++ [book_id];
     total_fines := total_fines self |}.

Definition return_book (self : t) (book_id : Z) : t * bool :=
  if decide (book_id ∈ borrowed_books self)
  then ({| member_id := member_id self; name := name self; email := email self;
           borrowed_books := list_remove book_id (borrowed_books self);
           total_fines := total_fines self |}, true)
  else (self, false).

Definition add_fine (self : t) (amount : Z) : t :=
  {| member_id := member_id self; name := name self; email := email self;
     borrowed_books := borrowed_books self;
     total_fines := total_fines self + amount |}.

End Member.

(** ** class Library *)

Module Library.

Record t := mk {
  name : string;
  books : gmap Z Book.t;
  members : gmap Z Member.t;
  isbn_index : gmap string Z
}.

(** The state a [Library] method works on: the object and the two class
    attributes its constructors of [Book] and [Member] increment. *)
Record state := mkState {
  book_id_counter : Z;
  member_id_counter : Z;
  self : t
}.

(** [Library(name)], with the counters at the values they have then. The
    classes start them at 1 and 100. *)
Definition init (book_id_counter member_id_counter : Z) (name : string) : state :=
  {| book_id_counter := book_id_counter;
     member_id_counter := member_id_counter;
     self := {| name := name; books := ∅; members := ∅; isbn_index := ∅ |} |}.

Definition set_books (st : state) (bs : gmap Z Book.t) : state :=
  {| book_id_counter := book_id_counter st;
     member_id_counter := member_id_counter st;
     self := {| name := name (self st); books := bs;
                members := members (self st);
                isbn_index := isbn_index (self st) |} |}.

Definition set_members (st : state) (ms : gmap Z Member.t) : state :=
  {| book_id_counter := book_id_counter st;
     member_id_counter := member_id_counter st;
     self := {| name := name (self st); books := books (self st);
                members := ms;
                isbn_index := isbn_index (self st) |} |}.

(** An exception that leaves the method: [add_book] catches [ValueError]
    only, so the [KeyError] of [self.books[existing_book_id]] goes through. *)
Inductive exn := KeyError.

(** [self.add_book(title, author, isbn, copies)] with [copies] an [int].
    [inr (Some i)] returns [i], [inr None] returns [None] (the [ValueError]
    branch), [inl e] raises [e]. *)
Definition add_book (st : state) (title author isbn : string) (copies : Z)
  : state * (exn + option Z) :=
  let title := Str.title (Str.strip title) in
  let author := Str.title (Str.strip author) in
  let isbn := Str.strip isbn in
  if copies <=? 0 then (st, inr None)
  else match isbn_index (self st) !! isbn with
  | Some existing_book_id =>
      match books (self st) !! existing_book_id with
      | None => (st, inl KeyError)
      | Some existing_book =>
          (set_books st (<[existing_book_id := Book.add_copies existing_book copies]>
                           (books (self st))),
           inr (Some existing_book_id))
      end
  | None =>
      let '(counter, book) := Book.init (book_id_counter st) title author isbn copies in
      ({| book_id_counter := counter;
          member_id_counter := member_id_counter st;
          self := {| name := name (self st);
                     books := <[Book.book_id book := book]> (books (self st));
                     members := members (self st);
                     isbn_index := <[isbn := Book.book_id book]> (isbn_index (self st)) |} |},
       inr (Some (Book.book_id book)))
  end.

(** [self.register_member(name, email)] *)
Definition register_member (st : state) (name email : string) : state * option Z :=
  let name := Str.title (Str.strip name) in
  let email := Str.lower (Str.strip email) in
  if Str.is_empty name || Str.is_empty email then (st, None)
  else
    let '(counter, member) := Member.init (member_id_counter st) name email in
    ({| book_id_counter := book_id_counter st;
        member_id_counter := counter;
        self := {| name := Library.name (self st);
                   books := books (self st);
                   members := <[Member.member_id member := member]> (members (self st));
                   isbn_index := isbn_index (self st) |} |},
     Some (Member.member_id member)).

(** What [issue_book] prints, branch by branch. The method returns [True]
    on [Issued] and [False] on the others. *)
Inductive issue_outcome :=
| IssueBookNotFound
| IssueMemberNotFound
| CannotIssue (result : string)
| Issued (result : IssueRecord).

Definition issue_returns (o : issue_outcome) : bool :=
  match o with Issued _ => true | _ => false end.

(** [self.issue_book(book_id, member_id)] with both identifiers [int]s. *)
Definition issue_book (st : state) (book_id member_id : Z) (now : Z)
  : state * issue_outcome :=
  match books (self st) !! book_id with
  | None => (st, IssueBookNotFound)
  | Some book =>
      match members (self st) !! member_id with
      | None => (st, IssueMemberNotFound)
      | Some member =>
          match Book.issue_book book member_id (Member.name member) now with
          | (_, inl result) => (st, CannotIssue result)
          | (book', inr result) =>
              let st1 := set_books st (<[book_id := book']> (books (self st))) in
              (set_members st1 (<[member_id := Member.borrow_book member book_id]>
                                  (members (self st1))),
               Issued result)
          end
      end
  end.

(** What [return_book] prints. The method returns [True] on [Returned]
    and [False] on the others. *)
Inductive return_outcome :=
| ReturnBookNotFound
| ReturnMemberNotFound
| CannotReturn (message : string)
| Returned (return_info : ReturnInfo).

Definition return_returns (o : return_outcome) : bool :=
  match o with Returned _ => true | _ => false end.

(** [self.return_book(book_id, member_id)] with both identifiers [int]s. *)
Definition return_book (st : state) (book_id member_id : Z) (now : Z)
  : state * return_outcome :=
  match books (self st) !! book_id with
  | None => (st, ReturnBookNotFound)
  | Some book =>
      match members (self st) !! member_id with
      | None => (st, ReturnMemberNotFound)
      | Some member =>
          match Book.return_book book member_id now with
          | (_, inl message) => (st, CannotReturn message)
          | (book', inr return_info) =>
              let st1 := set_books st (<[book_id := book']> (books (self st))) in
              let member1 := fst (Member.return_book member book_id) in
              let member2 :=
                if is_overdue return_info
                then Member.add_fine member1 (fine return_info)
                else member1 in
              (set_members st1 (<[member_id := member2]> (members (self st1))),
               Returned return_info)
          end
      end
  end.

End Library.

(** ** Sequences of calls *)

(** A call on one [Book] object. *)
Inductive book_call :=
| Issue (member_id : Z) (member_name : string) (now : Z)
| Return (member_id : Z) (now : Z).

Definition book_step (b : Book.t) (c : book_call) : Book.t :=
  match c with
  | Issue m n now => fst (Book.issue_book b m n now)
  | Return m now => fst (Book.return_book b m now)
  end.

Definition book_run (b : Book.t) (cs : list book_call) : Book.t :=
  fold_left book_step cs b.

(** A call on the [Library]. *)
Inductive call :=
| AddBook (title author isbn : string) (copies : Z)
| RegisterMember (name email : string)
| IssueBook (book_id member_id : Z) (now : Z)
| ReturnBook (book_id member_id : Z) (now : Z).

Definition step (st : Library.state) (c : call) : Library.state :=
  match c with
  | AddBook t a i n => fst (Library.add_book st t a i n)
  | RegisterMember n e => fst (Library.register_member st n e)
  | IssueBook b m now => fst (Library.issue_book st b m now)
  | ReturnBook b m now => fst (Library.return_book st b m now)
  end.

Definition run (st : Library.state) (cs : list call) : Library.state :=
  fold_left step cs st.

(** ** Observations on a ledger state *)

(** The borrowed list of member [m]; empty when there is no such member. *)
Definition borrowed (st : Library.state) (m : Z) : list Z :=
  match Library.members (Library.self st) !! m with
  | Some member => Member.borrowed_books member
  | None => []
  end.

(** Book [b] exists and holds a record for member [m] in [issued_to]. *)
Definition has_loan (st : Library.state) (b m : Z) : bool :=
  match Library.books (Library.self st) !! b with
  | Some book =>
      match Book.issued_to book !! m with Some _ => true | None => false end
  | None => false
  end.

(** ** Invariants *)

(** Copy conservation: the copies on the shelf and the records in
    [issued_to] add up to the total, and the shelf count stays in range. *)
Definition book_inv (b : Book.t) : Prop :=
  Book.available_copies b
    = Book.total_copies b - Z.of_nat (size (Book.issued_to b))
  ∧ 0 ≤ Book.available_copies b ≤ Book.total_copies b.

(** A call is a return for member [m]. *)
Definition returns_member (m : Z) (c : book_call) : bool :=
  match c with
  | Return m' _ => bool_decide (m' = m)
  | Issue _ _ _ => false
  end.

(** What holds of every state the four operations can produce. *)
Record ledger_inv (st : Library.state) : Prop := {
  inv_book_ids : ∀ b bk,
    Library.books (Library.self st) !! b = Some bk →
    b < Library.book_id_counter st;
  inv_member_ids : ∀ m mem,
    Library.members (Library.self st) !! m = Some mem →
    m < Library.member_id_counter st;
  inv_isbn_index : ∀ i b,
    Library.isbn_index (Library.self st) !! i = Some b →
    is_Some (Library.books (Library.self st) !! b);
  inv_copies : ∀ b bk,
    Library.books (Library.self st) !! b = Some bk → book_inv bk;
  inv_borrowed : ∀ b m,
    list_count b (borrowed st m) = if has_loan st b m then 1%nat else 0%nat
}.

(** ** The views of the Library *)

(** [sum(f(v) for v in d.values())] on integers; the order of the
    dictionary does not matter to the sum. *)
Definition map_sum {K} `{Countable K} {V} (f : V → Z) (m : gmap K V) : Z :=
  map_fold (λ _ v acc, f v + acc) 0 m.

Module LibraryViews.

(** The status column of a loan: ["OVERDUE"] or ["Due in n days"] in
    [view_member_info]; ["OVERDUE (n days)"] or ["Due in n days"] in
    [view_issued_books]. *)
Inductive member_status :=
| MemberOverdue
| MemberDueIn (days_remaining : Z).

Inductive issued_status :=
| IssuedOverdue (days : Z)
| IssuedDueIn (days_remaining : Z).

(** One line of [view_member_info] under "CURRENTLY BORROWED BOOKS": the
    title, the due date (printed as a date) and the status. *)
Record borrowed_line := mkLine {
  line_title : string;
  line_due_date : Z;
  line_status : member_status
}.

(** What [view_member_info] prints for a member it finds. *)
Record member_view := mkView {
  view_member_id : Z;
  view_name : string;
  view_email : string;
  view_books_issued : nat;
  view_total_fines : Z;
  view_lines : list borrowed_line
}.

(** The loop of [view_member_info] over [member.borrowed_books]. Each
    iteration reads the clock once; [clock i] is the value read by the
    iteration that handles position [i] of the list. Both subscripts,
    [self.books[book_id]] and [book.issued_to[member_id]], raise
    [KeyError] on a missing key. *)
Fixpoint borrowed_lines (books : gmap Z Book.t) (member_id : Z)
    (clock : nat → Z) (i : nat) (borrowed_books : list Z)
  : Library.exn + list borrowed_line :=
  match borrowed_books with
  | [] => inr []
  | book_id :: rest =>
      match books !! book_id with
      | None => inl Library.KeyError
      | Some book =>
          match Book.issued_to book !! member_id with
          | None => inl Library.KeyError
          | Some record =>
              let days_remaining := timedelta_days (due_date record - clock i) in
              let status :=
                if days_remaining <? 0 then MemberOverdue
                else MemberDueIn days_remaining in
              match borrowed_lines books member_id clock (S i) rest with
              | inl e => inl e
              | inr lines =>
                  inr (mkLine (Book.title book) (due_date record) status :: lines)
              end
          end
      end
  end.

(** [self.view_member_info(member_id)] with [member_id] an [int]:
    [inr None] when the member is not found, [inr (Some v)] when the
    report [v] is printed, [inl e] when [e] is raised (the method catches
    [ValueError] only). *)
Definition view_member_info (st : Library.state) (member_id : Z)
    (clock : nat → Z) : Library.exn + option member_view :=
  match Library.members (Library.self st) !! member_id with
  | None => inr None
  | Some member =>
      match borrowed_lines (Library.books (Library.self st)) member_id clock 0
              (Member.borrowed_books member) with
      | inl e => inl e
      | inr lines =>
          inr (Some {| view_member_id := Member.member_id member;
                       view_name := Member.name member;
                       view_email := Member.email member;
                       view_books_issued := length (Member.borrowed_books member);
                       view_total_fines := Member.total_fines member;
                       view_lines := lines |})
      end
  end.

(** One entry of [view_issued_books], for one record of one Book:
    [days_remaining], [is_overdue], and the status it is printed with. *)
Definition issued_days_remaining (record : IssueRecord) (now : Z) : Z :=
  timedelta_days (due_date record - now).

Definition issued_is_overdue (record : IssueRecord) (now : Z) : bool :=
  issued_days_remaining record now <? 0.

Definition issued_entry_status (record : IssueRecord) (now : Z) : issued_status :=
  if issued_is_overdue record now
  then IssuedOverdue (Z.abs (issued_days_remaining record now))
  else IssuedDueIn (issued_days_remaining record now).

(** The totals the views print on their last line: [len(self.books)] and
    the sum of [total_copies] in [view_all_books]; [len(issued_books)],
    one entry for each record of each Book, in [view_issued_books];
    [len(available_books)] in [view_available_books]. *)
Definition total_books (st : Library.state) : nat :=
  size (Library.books (Library.self st)).

Definition total_copies_sum (st : Library.state) : Z :=
  map_sum Book.total_copies (Library.books (Library.self st)).

Definition total_issued_books (st : Library.state) : Z :=
  map_sum (λ book, Z.of_nat (size (Book.issued_to book)))
          (Library.books (Library.self st)).

Definition total_available_books (st : Library.state) : Z :=
  map_sum (λ book, if Book.is_available book then 1 else 0)
          (Library.books (Library.self st)).

End LibraryViews.

(** The records of the Books are as many as the entries of the members'
    borrowed lists. *)
Definition loans_balance (st : Library.state) : Prop :=
  LibraryViews.total_issued_books st
  = map_sum (λ mem, Z.of_nat (length (Member.borrowed_books mem)))
            (Library.members (Library.self st)).

(** ** Well-formedness of the catalog, the registry and the records *)

Record catalog_wf (st : Library.state) : Prop := {
  wf_book_id : ∀ b bk,
    Library.books (Library.self st) !! b = Some bk → Book.book_id bk = b;
  wf_total : ∀ b bk,
    Library.books (Library.self st) !! b = Some bk → 1 ≤ Book.total_copies bk;
  wf_isbn : ∀ b bk,
    Library.books (Library.self st) !! b = Some bk →
    Library.isbn_index (Library.self st) !! Book.isbn bk = Some b;
  wf_index : ∀ i b,
    Library.isbn_index (Library.self st) !! i = Some b →
    ∃ bk, Library.books (Library.self st) !! b = Some bk ∧ Book.isbn bk = i;
  wf_member : ∀ m mem,
    Library.members (Library.self st) !! m = Some mem →
    Member.member_id mem = m
    ∧ Str.is_empty (Member.name mem) = false
    ∧ Str.is_empty (Member.email mem) = false
    ∧ 0 ≤ Member.total_fines mem;
  wf_record : ∀ b bk m r,
    Library.books (Library.self st) !! b = Some bk →
    Book.issued_to bk !! m = Some r →
    member_id r = m
    ∧ due_date r = issue_date r + timedelta_of_days loan_period_days
    ∧ ∃ mem, Library.members (Library.self st) !! m = Some mem
             ∧ Member.name mem = member_name r
}.

(** ** What the calls keep of a Book and of a Member *)

(** The parts of a Book that no call changes, and the total that no call
    lowers. *)
Definition same_book (bk bk' : Book.t) : Prop :=
  Book.book_id bk' = Book.book_id bk
  ∧ Book.title bk' = Book.title bk
  ∧ Book.author bk' = Book.author bk
  ∧ Book.isbn bk' = Book.isbn bk
  ∧ Book.total_copies bk ≤ Book.total_copies bk'.

(** The parts of a Member that no call changes, and the fines that no
    call lowers. *)
Definition same_member (mem mem' : Member.t) : Prop :=
  Member.member_id mem' = Member.member_id mem
  ∧ Member.name mem' = Member.name mem
  ∧ Member.email mem' = Member.email mem
  ∧ Member.total_fines mem ≤ Member.total_fines mem'.

(** * To Do App *)

(** ** class Task *)

Module Task.

Record t := mk {
  task_id : Z;
  title : string;
  description : string;
  priority : string;
  completed : bool;
  created_at : Z;
  completed_at : option Z
}.

(** Truth value of the [task_id] argument: [None] and [0] are false. *)
Definition given (task_id : option Z) : bool :=
  match task_id with
  | Some i => negb (i =? 0)
  | None => false
  end.

(** [Task(title, description, priority, task_id)], threading the class
    attribute [Task.task_id_counter]; [now] is the clock read for
    [created_at]. *)
Definition init (task_id_counter : Z) (title description priority : string)
    (task_id : option Z) (now : Z) : Z * t :=
  (if given task_id then task_id_counter else task_id_counter + 1,
   {| task_id := match task_id with
                 | Some i => if given task_id then i else task_id_counter
                 | None => task_id_counter
                 end;
      title := title; description := description; priority := priority;
      completed := false; created_at := now; completed_at := None |}).

Definition mark_completed (self : t) (now : Z) : t :=
  {| task_id := task_id self; title := title self;
     description := description self; priority := priority self;
     completed := true; created_at := created_at self;
     completed_at := Some now |}.

Definition mark_pending (self : t) : t :=
  {| task_id := task_id self; title := title self;
     description := description self; priority := priority self;
     completed := false; created_at := created_at self;
     completed_at := None |}.

(** [priority_map.get(self.priority, 2)] *)
Definition get_priority_value (self : t) : Z :=
  if String.eqb (priority self) "High" then 3
  else if String.eqb (priority self) "Medium" then 2
  else if String.eqb (priority self) "Low" then 1
  else 2.

(** The dictionary [to_dict] builds and [from_dict] reads. The two ISO
    strings are kept as the datetimes they denote
    ([datetime.fromisoformat] inverts [datetime.isoformat]); a missing
    [completed_at] is [None]. *)
Record dict := mkDict {
  d_task_id : Z;
  d_title : string;
  d_description : string;
  d_priority : string;
  d_completed : bool;
  d_created_at : Z;
  d_completed_at : option Z
}.

Definition to_dict (self : t) : dict :=
  {| d_task_id := task_id self; d_title := title self;
     d_description := description self; d_priority := priority self;
     d_completed := completed self; d_created_at := created_at self;
     d_completed_at := completed_at self |}.

(** [Task.from_dict(data)], threading [Task.task_id_counter]. *)
Definition from_dict (task_id_counter : Z) (data : dict) (now : Z) : Z * t :=
  let '(counter, task) :=
    init task_id_counter (d_title data) (d_description data) (d_priority data)
         (Some (d_task_id data)) now in
  let task :=
    {| task_id := task_id task; title := title task;
       description := description task; priority := priority task;
       completed := d_completed data;
       created_at := d_created_at data;
       completed_at := match d_completed_at data with
                       | Some c => Some c
                       | None => completed_at task
                       end |} in
  (if counter <=? task_id task then task_id task + 1 else counter, task).

End Task.

(** ** class TaskManager *)

(** [sorted]/[list.sort] as a stable sort: [before y x] says that [y]
    must come before [x]; an element goes after everything that must
    come before it, and before the rest, so that elements neither of
    which must come before the other keep their order. *)
Fixpoint stable_insert {A} (before : A → A → bool) (x : A) (l : list A) : list A :=
  match l with
  | [] => [x]
  | y :: l' => if before y x then y :: stable_insert before x l' else x :: l
  end.

Fixpoint stable_sort {A} (before : A → A → bool) (l : list A) : list A :=
  match l with
  | [] => []
  | x :: l' => stable_insert before x (stable_sort before l')
  end.

(** The order of [sort(key=..., reverse=True)]: descending by [key]. *)
Definition key_before {A} (key : A → Z) (y x : A) : bool := key x <? key y.

Module TaskManager.

(** The list [self.tasks] and the class attribute [Task.task_id_counter].
    [save_tasks] writes a file and catches every exception: it changes
    neither. *)
Record state := mkState {
  task_id_counter : Z;
  tasks : list Task.t
}.

(** The list comprehension of [load_tasks]. *)
Fixpoint from_dicts (task_id_counter : Z) (data : list Task.dict) (now : Z)
  : Z * list Task.t :=
  match data with
  | [] => (task_id_counter, [])
  | d :: ds =>
      let '(c1, task) := Task.from_dict task_id_counter d now in
      let '(c2, rest) := from_dicts c1 ds now in
      (c2, task :: rest)
  end.

(** [TaskManager(save_file)]: [file] is the list under ["tasks"] of the
    save file, [None] when there is no file. *)
Definition init (task_id_counter : Z) (file : option (list Task.dict)) (now : Z)
  : state :=
  match file with
  | None => {| task_id_counter := task_id_counter; tasks := [] |}
  | Some data =>
      let '(c, ts) := from_dicts task_id_counter data now in
      {| task_id_counter := c; tasks := ts |}
  end.

Fixpoint find_in (ts : list Task.t) (task_id : Z) : option Task.t :=
  match ts with
  | [] => None
  | task :: rest =>
      if Task.task_id task =? task_id then Some task else find_in rest task_id
  end.

(** [self._find_task(task_id)] *)
Definition _find_task (st : state) (task_id : Z) : option Task.t :=
  find_in (tasks st) task_id.

(** The object [_find_task] returns is the first of the list with that
    identifier: a method called on it changes that element. *)
Fixpoint update_found (f : Task.t → Task.t) (task_id : Z) (ts : list Task.t)
  : list Task.t :=
  match ts with
  | [] => []
  | task :: rest =>
      if Task.task_id task =? task_id then f task :: rest
      else task :: update_found f task_id rest
  end.

(** [self.tasks.remove(task)] for the object [_find_task] returns. *)
Fixpoint remove_found (task_id : Z) (ts : list Task.t) : list Task.t :=
  match ts with
  | [] => []
  | task :: rest =>
      if Task.task_id task =? task_id then rest
      else task :: remove_found task_id rest
  end.

(** [priority in ['High', 'Medium', 'Low']] *)
Definition valid_priority (priority : string) : bool :=
  String.eqb priority "High" || String.eqb priority "Medium"
  || String.eqb priority "Low".

(** [self.add_task(title, description, priority)] *)
Definition add_task (st : state) (title description priority : string) (now : Z)
  : state * option Z :=
  let title := Str.strip title in
  if Str.is_empty title then (st, None)
  else
    let priority := Str.title (Str.strip priority) in
    let priority := if valid_priority priority then priority else "Medium" in
    let '(counter, task) :=
      Task.init (task_id_counter st) title (Str.strip description) priority
                None now in
    ({| task_id_counter := counter; tasks := tasks st ++ [task] |},
     Some (Task.task_id task)).

(** [self.mark_completed(task_id)] with [task_id] an [int]. *)
Definition mark_completed (st : state) (task_id : Z) (now : Z) : state * bool :=
  match _find_task st task_id with
  | None => (st, false)
  | Some task =>
      if Task.completed task then (st, false)
      else ({| task_id_counter := task_id_counter st;
               tasks := update_found (λ t, Task.mark_completed t now) task_id
                                     (tasks st) |}, true)
  end.

(** [self.mark_pending(task_id)] with [task_id] an [int]. *)
Definition mark_pending (st : state) (task_id : Z) : state * bool :=
  match _find_task st task_id with
  | None => (st, false)
  | Some task =>
      if negb (Task.completed task) then (st, false)
      else ({| task_id_counter := task_id_counter st;
               tasks := update_found Task.mark_pending task_id (tasks st) |},
            true)
  end.

(** [self.delete_task(task_id)] with [task_id] an [int]; [answer] is what
    [input] returns at the confirmation prompt. *)
Definition delete_task (st : state) (task_id : Z) (answer : string) : state * bool :=
  match _find_task st task_id with
  | None => (st, false)
  | Some task =>
      if String.eqb (Str.lower (Str.strip answer)) "yes"
      then ({| task_id_counter := task_id_counter st;
               tasks := remove_found task_id (tasks st) |}, true)
      else (st, false)
  end.

(** [sum(1 for t in self.tasks if p(t))] *)
Fixpoint count_if (p : Task.t → bool) (ts : list Task.t) : Z :=
  match ts with
  | [] => 0
  | task :: rest => (if p task then 1 else 0) + count_if p rest
  end.

(** The integers [get_statistics] prints. *)
Record statistics := mkStatistics {
  total : Z;
  completed : Z;
  pending : Z;
  high : Z;
  medium : Z;
  low : Z
}.

Definition pending_with (priority : string) (task : Task.t) : bool :=
  String.eqb (Task.priority task) priority && negb (Task.completed task).

(** [self.get_statistics()]: [None] when there is no task. *)
Definition get_statistics (st : state) : option statistics :=
  match tasks st with
  | [] => None
  | _ =>
      let total := Z.of_nat (length (tasks st)) in
      let completed := count_if Task.completed (tasks st) in
      Some {| total := total; completed := completed;
              pending := total - completed;
              high := count_if (pending_with "High") (tasks st);
              medium := count_if (pending_with "Medium") (tasks st);
              low := count_if (pending_with "Low") (tasks st) |}
  end.

(** [pending.sort(key=lambda t: t.get_priority_value(), reverse=True)]:
    a task with a higher value comes before one with a lower value. *)
Definition higher_priority : Task.t → Task.t → bool :=
  key_before Task.get_priority_value.

(** The tasks [view_pending_tasks(sort_by_priority)] prints, in order. *)
Definition view_pending_tasks (st : state) (sort_by_priority : bool) : list Task.t :=
  let pending := filter (λ task, Task.completed task = false) (tasks st) in
  if sort_by_priority then stable_sort higher_priority pending else pending.

End TaskManager.

(** A call on the [TaskManager]. *)
Inductive task_call :=
| AddTask (title description priority : string) (now : Z)
| MarkCompleted (task_id : Z) (now : Z)
| MarkPending (task_id : Z)
| DeleteTask (task_id : Z) (answer : string).

Definition task_step (st : TaskManager.state) (c : task_call) : TaskManager.state :=
  match c with
  | AddTask t d p now => fst (TaskManager.add_task st t d p now)
  | MarkCompleted i now => fst (TaskManager.mark_completed st i now)
  | MarkPending i => fst (TaskManager.mark_pending st i)
  | DeleteTask i answer => fst (TaskManager.delete_task st i answer)
  end.

Definition task_run (st : TaskManager.state) (cs : list task_call)
  : TaskManager.state :=
  fold_left task_step cs st.

(** Every task has an identifier below the counter. *)
Definition ids_below_counter (st : TaskManager.state) : Prop :=
  Forall (λ task, Task.task_id task < TaskManager.task_id_counter st)
         (TaskManager.tasks st).

(** What holds of the tasks [add_task] makes and the calls keep: a
    priority among the three, and a completion date exactly on the
    completed tasks. *)
Definition task_ok (task : Task.t) : Prop :=
  TaskManager.valid_priority (Task.priority task) = true
  ∧ (Task.completed task = false → Task.completed_at task = None).

(** From an empty list, the calls keep the identifiers distinct and
    every task well formed. *)
Definition tasks_ok (st : TaskManager.state) : Prop :=
  ids_below_counter st
  ∧ NoDup (map Task.task_id (TaskManager.tasks st))
  ∧ Forall task_ok (TaskManager.tasks st).

(** * The string methods on examples *)

Example strip_example : Str.strip "  978-0441 013593 " = "978-0441 013593".
Proof. reflexivity. Qed.

Example title_example : Str.title "j.r.r. tolkien's THE hobbit" = "J.R.R. Tolkien'S The Hobbit".
Proof. reflexivity. Qed.

Example lower_example : Str.lower "Ann@Example.ORG" = "ann@example.org".
Proof. reflexivity. Qed.

(** * Properties of one Book *)

Section BookFacts.

Implicit Types (b : Book.t) (m : Z) (now : Z) (n : string).

Lemma is_available_false b :
  Book.is_available b = false ↔ Book.available_copies b ≤ 0.
Proof. unfold Book.is_available. rewrite Z.ltb_ge. done. Qed.

Lemma is_available_true b :
  Book.is_available b = true ↔ 0 < Book.available_copies b.
Proof. unfold Book.is_available. rewrite Z.ltb_lt. done. Qed.

Lemma issue_book_unavailable b m n now :
  Book.available_copies b ≤ 0 →
  Book.issue_book b m n now = (b, inl NoCopiesAvailable).
Proof.
  intros Hav. unfold Book.issue_book.
  by rewrite (proj2 (is_available_false b) Hav).
Qed.

Lemma issue_book_held b m n now r :
  0 < Book.available_copies b →
  Book.issued_to b !! m = Some r →
  Book.issue_book b m n now = (b, inl AlreadyBorrowed).
Proof.
  intros Hav Hr. unfold Book.issue_book.
  by rewrite (proj2 (is_available_true b) Hav), Hr.
Qed.

(** What a successful issue does to the object. *)
Lemma issue_book_success b m n now b' r :
  Book.issue_book b m n now = (b', inr r) →
  0 < Book.available_copies b
  ∧ Book.issued_to b !! m = None
  ∧ r = mkIssueRecord m n now (now + timedelta_of_days loan_period_days)
  ∧ Book.issued_to b' = <[m := r]> (Book.issued_to b)
  ∧ Book.available_copies b' = Book.available_copies b - 1
  ∧ Book.total_copies b' = Book.total_copies b.
Proof.
  unfold Book.issue_book.
  destruct (Book.is_available b) eqn:Hav; simpl; [|discriminate].
  destruct (Book.issued_to b !! m) eqn:Hm; [discriminate|].
  intros [= <- <-]. simpl. by apply is_available_true in Hav.
Qed.

(** A failed issue leaves the object as it was. *)
Lemma issue_book_failure b m n now b' msg :
  Book.issue_book b m n now = (b', inl msg) → b' = b.
Proof.
  unfold Book.issue_book.
  destruct (Book.is_available b); simpl; [|congruence].
  destruct (Book.issued_to b !! m); [congruence|discriminate].
Qed.

Lemma return_book_success b m now r :
  Book.issued_to b !! m = Some r →
  ∃ b' info,
    Book.return_book b m now = (b', inr info)
    ∧ Book.issued_to b' = delete m (Book.issued_to b)
    ∧ Book.available_copies b' = Book.available_copies b + 1
    ∧ Book.total_copies b' = Book.total_copies b
    ∧ is_overdue info = (due_date r <? now)
    ∧ days_borrowed info = timedelta_days (now - issue_date r)
    ∧ overdue_days info
        = (if due_date r <? now then timedelta_days (now - due_date r) else 0)
    ∧ fine info
        = (if due_date r <? now then overdue_days info * daily_fine_rate else 0).
Proof.
  intros Hr. unfold Book.return_book. rewrite Hr.
  eexists _, _. split; [reflexivity|]. simpl. done.
Qed.

Lemma return_book_inv_success b m now b' info :
  Book.return_book b m now = (b', inr info) →
  is_Some (Book.issued_to b !! m)
  ∧ Book.issued_to b' = delete m (Book.issued_to b)
  ∧ Book.available_copies b' = Book.available_copies b + 1
  ∧ Book.total_copies b' = Book.total_copies b.
Proof.
  unfold Book.return_book.
  destruct (Book.issued_to b !! m) eqn:Hm; [|discriminate].
  intros [= <- <-]. simpl. eauto.
Qed.

Lemma return_book_failure b m now b' msg :
  Book.return_book b m now = (b', inl msg) → b' = b.
Proof.
  unfold Book.return_book.
  destruct (Book.issued_to b !! m); [discriminate|congruence].
Qed.

(** [timedelta.days] is the whole-day floor. *)
Lemma timedelta_days_floor (delta : Z) :
  timedelta_days delta * microseconds_per_day ≤ delta
    < (timedelta_days delta + 1) * microseconds_per_day.
Proof.
  unfold timedelta_days, microseconds_per_day.
  pose proof (Z.div_mod delta 86400000000 ltac:(lia)).
  pose proof (Z.mod_pos_bound delta 86400000000 ltac:(lia)). lia.
Qed.

Lemma timedelta_days_of_days (d : Z) :
  timedelta_days (timedelta_of_days d) = d.
Proof.
  unfold timedelta_days, timedelta_of_days.
  apply Z.div_mul. unfold microseconds_per_day. lia.
Qed.

Lemma book_inv_init c t a i copies :
  0 ≤ copies → book_inv (snd (Book.init c t a i copies)).
Proof.
  intros Hc. unfold book_inv. simpl. rewrite map_size_empty. lia.
Qed.

Lemma book_inv_issue b m n now :
  book_inv b → book_inv (fst (Book.issue_book b m n now)).
Proof.
  intros [Heq Hrange].
  destruct (Book.issue_book b m n now) as [b' [msg|r]] eqn:Hi; simpl.
  - apply issue_book_failure in Hi as ->. by split.
  - apply issue_book_success in Hi as (Hav & Hm & _ & Hto & Ha & Ht).
    unfold book_inv. rewrite Hto, Ha, Ht, map_size_insert_None by done. lia.
Qed.

Lemma book_inv_return b m now :
  book_inv b → book_inv (fst (Book.return_book b m now)).
Proof.
  intros [Heq Hrange].
  destruct (Book.return_book b m now) as [b' [msg|info]] eqn:Hr; simpl.
  - apply return_book_failure in Hr as ->. by split.
  - apply return_book_inv_success in Hr as (Hm & Hto & Ha & Ht).
    unfold book_inv. rewrite Hto, Ha, Ht, map_size_delete_Some by done.
    assert (size (Book.issued_to b) ≠ 0%nat) as Hne.
    { intros He%map_size_empty_inv. rewrite He, lookup_empty in Hm.
      by destruct Hm. }
    lia.
Qed.

Lemma book_inv_step b c : book_inv b → book_inv (book_step b c).
Proof.
  destruct c; simpl; [apply book_inv_issue | apply book_inv_return].
Qed.

Lemma book_inv_add_copies b copies :
  0 ≤ copies → book_inv b → book_inv (Book.add_copies b copies).
Proof. intros Hc [Heq Hr]. unfold book_inv. simpl. lia. Qed.

(** A record stays in [issued_to] through any calls that are not a return
    for its member. *)
Lemma book_step_keeps_loan b m c :
  returns_member m c = false →
  is_Some (Book.issued_to b !! m) →
  is_Some (Book.issued_to (book_step b c) !! m).
Proof.
  intros Hc Hm. destruct c as [m' n' now'|m' now']; simpl in *.
  - destruct (Book.issue_book b m' n' now') as [b' [msg|r]] eqn:Hi; simpl.
    + by apply issue_book_failure in Hi as ->.
    + apply issue_book_success in Hi as (_ & _ & _ & -> & _).
      rewrite lookup_insert_is_Some. destruct (decide (m' = m)); auto.
  - apply bool_decide_eq_false in Hc.
    destruct (Book.return_book b m' now') as [b' [msg|info]] eqn:Hr; simpl.
    + by apply return_book_failure in Hr as ->.
    + apply return_book_inv_success in Hr as (_ & -> & _).
      by rewrite lookup_delete_ne.
Qed.

Lemma book_run_keeps_loan cs : ∀ b m,
  forallb (λ c, negb (returns_member m c)) cs = true →
  is_Some (Book.issued_to b !! m) →
  is_Some (Book.issued_to (book_run b cs) !! m).
Proof.
  induction cs as [|c cs IH]; intros b m Hcs Hm; simpl in *; [done|].
  apply andb_true_iff in Hcs as [Hc Hcs]. apply negb_true_iff in Hc.
  apply IH; [done|]. by apply book_step_keeps_loan.
Qed.

End BookFacts.

(** * Counting in the borrowed list *)

Section ListFacts.

Implicit Types (x y : Z) (l : list Z).

Lemma list_count_app x l y :
  list_count x (l ++ [y])
  = (list_count x l + (if decide (y = x) then 1 else 0))%nat.
Proof.
  induction l as [|z l IH]; simpl.
  - destruct (decide (y = x)); done.
  - destruct (decide (z = x)); rewrite IH; lia.
Qed.

Lemma list_count_remove_same x l :
  list_count x (list_remove x l) = pred (list_count x l).
Proof.
  induction l as [|z l IH]; simpl; [done|].
  destruct (decide (z = x)) as [->|Hne]; simpl; [done|].
  by destruct (decide (z = x)).
Qed.

Lemma list_count_remove_other x y l :
  x ≠ y → list_count x (list_remove y l) = list_count x l.
Proof.
  intros Hxy. induction l as [|z l IH]; simpl; [done|].
  destruct (decide (z = y)) as [->|Hzy]; simpl.
  - destruct (decide (y = x)); [congruence|done].
  - destruct (decide (z = x)); by rewrite IH.
Qed.

Lemma list_count_elem_of x l : x ∈ l ↔ list_count x l ≠ 0%nat.
Proof.
  induction l as [|z l IH]; simpl.
  - split; [by intros ?%elem_of_nil|done].
  - rewrite elem_of_cons, IH.
    destruct (decide (z = x)) as [Heq|Hne]; [split; [done|by left]|].
    split; [intros [?|?]; congruence|auto].
Qed.

Lemma list_remove_not_elem x l : x ∉ l → list_remove x l = l.
Proof.
  induction l as [|z l IH]; simpl; [done|].
  intros [Hne Hl]%not_elem_of_cons.
  destruct (decide (z = x)); [congruence|]. by rewrite IH.
Qed.

Lemma Member_return_book_borrowed (mem : Member.t) (b : Z) :
  Member.borrowed_books (fst (Member.return_book mem b))
  = list_remove b (Member.borrowed_books mem).
Proof.
  unfold Member.return_book.
  destruct (decide (b ∈ Member.borrowed_books mem)); simpl; [done|].
  by rewrite list_remove_not_elem.
Qed.

End ListFacts.

(** * Properties of the Library *)

Section LedgerFacts.

Implicit Types (st : Library.state) (b m now : Z).

(** The state after a successful [Library.issue_book]. *)
Lemma Library_issue_book_success st b m now st' r :
  Library.issue_book st b m now = (st', Library.Issued r) →
  ∃ bk mem bk',
    Library.books (Library.self st) !! b = Some bk
    ∧ Library.members (Library.self st) !! m = Some mem
    ∧ Book.issue_book bk m (Member.name mem) now = (bk', inr r)
    ∧ Library.books (Library.self st') = <[b := bk']> (Library.books (Library.self st))
    ∧ Library.members (Library.self st')
      = <[m := Member.borrow_book mem b]> (Library.members (Library.self st))
    ∧ Library.isbn_index (Library.self st') = Library.isbn_index (Library.self st)
    ∧ Library.book_id_counter st' = Library.book_id_counter st
    ∧ Library.member_id_counter st' = Library.member_id_counter st.
Proof.
  unfold Library.issue_book.
  destruct (Library.books (Library.self st) !! b) as [bk|] eqn:Hb; [|discriminate].
  destruct (Library.members (Library.self st) !! m) as [mem|] eqn:Hm; [|discriminate].
  destruct (Book.issue_book bk m (Member.name mem) now) as [bk' [msg|r']] eqn:Hi;
    [discriminate|].
  intros [= <- <-]. exists bk, mem, bk'. simpl. done.
Qed.

(** Every other outcome leaves the state as it was. *)
Lemma Library_issue_book_failure st b m now st' o :
  Library.issue_book st b m now = (st', o) →
  Library.issue_returns o = false → st' = st.
Proof.
  unfold Library.issue_book.
  destruct (Library.books (Library.self st) !! b) as [bk|]; [|congruence].
  destruct (Library.members (Library.self st) !! m) as [mem|]; [|congruence].
  destruct (Book.issue_book bk m (Member.name mem) now) as [bk' [msg|r']];
    [congruence|].
  intros [= <- <-]. discriminate.
Qed.

(** The state after a successful [Library.return_book]. *)
Lemma Library_return_book_success st b m now st' info :
  Library.return_book st b m now = (st', Library.Returned info) →
  ∃ bk mem bk' mem',
    Library.books (Library.self st) !! b = Some bk
    ∧ Library.members (Library.self st) !! m = Some mem
    ∧ Book.return_book bk m now = (bk', inr info)
    ∧ Library.books (Library.self st') = <[b := bk']> (Library.books (Library.self st))
    ∧ Library.members (Library.self st')
      = <[m := mem']> (Library.members (Library.self st))
    ∧ Member.borrowed_books mem' = list_remove b (Member.borrowed_books mem)
    ∧ Member.total_fines mem'
      = Member.total_fines mem + (if is_overdue info then fine info else 0)
    ∧ Library.isbn_index (Library.self st') = Library.isbn_index (Library.self st)
    ∧ Library.book_id_counter st' = Library.book_id_counter st
    ∧ Library.member_id_counter st' = Library.member_id_counter st.
Proof.
  unfold Library.return_book.
  destruct (Library.books (Library.self st) !! b) as [bk|] eqn:Hb; [|discriminate].
  destruct (Library.members (Library.self st) !! m) as [mem|] eqn:Hm; [|discriminate].
  destruct (Book.return_book bk m now) as [bk' [msg|info']] eqn:Hi;
    [discriminate|].
  intros [= <- <-]. exists bk, mem, bk'. eexists. simpl.
  split_and!; try done.
  - destruct (is_overdue info'); simpl; apply Member_return_book_borrowed.
  - destruct (is_overdue info'); simpl;
      unfold Member.return_book;
      destruct (decide (b ∈ Member.borrowed_books mem)); simpl; lia.
Qed.

Lemma Library_return_book_failure st b m now st' o :
  Library.return_book st b m now = (st', o) →
  Library.return_returns o = false → st' = st.
Proof.
  unfold Library.return_book.
  destruct (Library.books (Library.self st) !! b) as [bk|]; [|congruence].
  destruct (Library.members (Library.self st) !! m) as [mem|]; [|congruence].
  destruct (Book.return_book bk m now) as [bk' [msg|r']]; [congruence|].
  intros [= <- <-]. discriminate.
Qed.

End LedgerFacts.

(** ** The invariant is established and preserved *)

Section LedgerInvariant.

Implicit Types (st : Library.state) (b m now : Z).

Lemma ledger_inv_init bc mc nm : ledger_inv (Library.init bc mc nm).
Proof.
  split; simpl; try (intros ? ?; rewrite lookup_empty; discriminate).
  intros b m. unfold borrowed, has_loan. simpl. by rewrite !lookup_empty.
Qed.

Lemma ledger_inv_issue_book st b m now :
  ledger_inv st → ledger_inv (fst (Library.issue_book st b m now)).
Proof.
  intros Hinv.
  destruct (Library.issue_book st b m now) as [st' o] eqn:Hi. simpl.
  destruct o as [| |msg|r];
    try (by rewrite (Library_issue_book_failure _ _ _ _ _ _ Hi)).
  apply Library_issue_book_success in Hi
    as (bk & mem & bk' & Hb & Hm & Hbi & Hbs & Hms & Hidx & Hc1 & Hc2).
  pose proof (issue_book_success _ _ _ _ _ _ Hbi) as (_ & Hnone & _ & Hto & _).
  destruct Hinv as [I1 I2 I3 I4 I5].
  split.
  - intros b0 bk0. rewrite Hbs, Hc1, lookup_insert_Some.
    intros [[<- _]|[_ H]]; eauto.
  - intros m0 mem0. rewrite Hms, Hc2, lookup_insert_Some.
    intros [[<- _]|[_ H]]; eauto.
  - intros i b0. rewrite Hidx, Hbs, lookup_insert_is_Some.
    intros H. destruct (decide (b = b0)); eauto.
  - intros b0 bk0. rewrite Hbs, lookup_insert_Some.
    intros [[_ <-]|[_ H]]; [|eauto].
    replace bk' with (fst (Book.issue_book bk m (Member.name mem) now))
      by (by rewrite Hbi).
    apply book_inv_issue. eauto.
  - intros b0 m0. specialize (I5 b0 m0). revert I5.
    unfold borrowed, has_loan. rewrite Hbs, Hms.
    destruct (decide (m = m0)) as [<-|Hm0];
      destruct (decide (b = b0)) as [<-|Hb0].
    + rewrite !lookup_insert_eq, Hm, Hb, Hnone, Hto, lookup_insert_eq. simpl.
      rewrite list_count_app, decide_True by done. lia.
    + rewrite lookup_insert_eq, lookup_insert_ne, Hm by done. simpl.
      rewrite list_count_app, decide_False by done. lia.
    + rewrite lookup_insert_eq, lookup_insert_ne, Hb, Hto by done.
      by rewrite lookup_insert_ne.
    + by rewrite !lookup_insert_ne.
Qed.

Lemma ledger_inv_return_book st b m now :
  ledger_inv st → ledger_inv (fst (Library.return_book st b m now)).
Proof.
  intros Hinv.
  destruct (Library.return_book st b m now) as [st' o] eqn:Hi. simpl.
  destruct o as [| |msg|info];
    try (by rewrite (Library_return_book_failure _ _ _ _ _ _ Hi)).
  apply Library_return_book_success in Hi
    as (bk & mem & bk' & mem' & Hb & Hm & Hbr & Hbs & Hms & Hbor & _
        & Hidx & Hc1 & Hc2).
  pose proof (return_book_inv_success _ _ _ _ _ Hbr) as ([r Hr] & Hto & _).
  destruct Hinv as [I1 I2 I3 I4 I5].
  split.
  - intros b0 bk0. rewrite Hbs, Hc1, lookup_insert_Some.
    intros [[<- _]|[_ H]]; eauto.
  - intros m0 mem0. rewrite Hms, Hc2, lookup_insert_Some.
    intros [[<- _]|[_ H]]; eauto.
  - intros i b0. rewrite Hidx, Hbs, lookup_insert_is_Some.
    intros H. destruct (decide (b = b0)); eauto.
  - intros b0 bk0. rewrite Hbs, lookup_insert_Some.
    intros [[_ <-]|[_ H]]; [|eauto].
    replace bk' with (fst (Book.return_book bk m now)) by (by rewrite Hbr).
    apply book_inv_return. eauto.
  - intros b0 m0. specialize (I5 b0 m0). revert I5.
    unfold borrowed, has_loan. rewrite Hbs, Hms.
    destruct (decide (m = m0)) as [<-|Hm0];
      destruct (decide (b = b0)) as [<-|Hb0].
    + rewrite !lookup_insert_eq, Hm, Hb, Hr, Hto, lookup_delete_eq, Hbor.
      rewrite list_count_remove_same. lia.
    + rewrite lookup_insert_eq, lookup_insert_ne, Hm, Hbor by done.
      by rewrite list_count_remove_other.
    + rewrite lookup_insert_eq, lookup_insert_ne, Hb, Hto by done.
      by rewrite lookup_delete_ne.
    + by rewrite !lookup_insert_ne.
Qed.

Lemma ledger_inv_register_member st nm em :
  ledger_inv st → ledger_inv (fst (Library.register_member st nm em)).
Proof.
  intros [I1 I2 I3 I4 I5]. unfold Library.register_member.
  destruct (Str.is_empty _ || Str.is_empty _); simpl; [by split|].
  assert (Library.members (Library.self st) !! Library.member_id_counter st = None)
    as Hfresh.
  { destruct (Library.members (Library.self st) !! Library.member_id_counter st)
      as [mem|] eqn:Hm; [|done].
    apply I2 in Hm. lia. }
  split; simpl; eauto.
  - intros m0 mem0. rewrite lookup_insert_Some.
    intros [[<- _]|[_ H%I2]]; lia.
  - intros b0 m0. specialize (I5 b0 m0). revert I5.
    unfold borrowed, has_loan. simpl.
    destruct (decide (Library.member_id_counter st = m0)) as [<-|Hm0].
    + rewrite lookup_insert_eq, Hfresh. simpl. done.
    + by rewrite lookup_insert_ne.
Qed.

Lemma ledger_inv_add_book st t a i copies :
  ledger_inv st → ledger_inv (fst (Library.add_book st t a i copies)).
Proof.
  intros [I1 I2 I3 I4 I5]. unfold Library.add_book.
  destruct (copies <=? 0) eqn:Hc; simpl; [by split|].
  apply Z.leb_gt in Hc.
  destruct (Library.isbn_index (Library.self st) !! Str.strip i)
    as [existing|] eqn:Hidx.
  - destruct (Library.books (Library.self st) !! existing) as [bk|] eqn:Hbk;
      simpl; [|by split].
    split; simpl; eauto.
    + intros b0 bk0. rewrite lookup_insert_Some. intros [[<- _]|[_ H]]; eauto.
    + intros i0 b0 H. rewrite lookup_insert_is_Some.
      destruct (decide (existing = b0)); eauto.
    + intros b0 bk0. rewrite lookup_insert_Some.
      intros [[_ <-]|[_ H]]; [|eauto].
      apply book_inv_add_copies; [lia|eauto].
    + intros b0 m0. specialize (I5 b0 m0). revert I5.
      unfold borrowed, has_loan. simpl.
      destruct (decide (existing = b0)) as [<-|Hb0].
      * by rewrite lookup_insert_eq, Hbk.
      * by rewrite lookup_insert_ne.
  - assert (Library.books (Library.self st) !! Library.book_id_counter st = None)
      as Hfresh.
    { destruct (Library.books (Library.self st) !! Library.book_id_counter st)
        as [bk|] eqn:Hb; [|done].
      apply I1 in Hb. lia. }
    split; simpl; eauto.
    + intros b0 bk0. rewrite lookup_insert_Some.
      intros [[<- _]|[_ H%I1]]; lia.
    + intros i0 b0. rewrite lookup_insert_Some, lookup_insert_is_Some.
      intros [[_ <-]|[_ H]]; [by left|].
      destruct (decide (Library.book_id_counter st = b0)); eauto.
    + intros b0 bk0. rewrite lookup_insert_Some.
      intros [[_ <-]|[_ H]]; [|eauto].
      apply (book_inv_init (Library.book_id_counter st)). lia.
    + intros b0 m0. specialize (I5 b0 m0). revert I5.
      unfold borrowed, has_loan. simpl.
      destruct (decide (Library.book_id_counter st = b0)) as [<-|Hb0].
      * rewrite lookup_insert_eq, Hfresh. simpl. by rewrite lookup_empty.
      * by rewrite lookup_insert_ne.
Qed.

Lemma ledger_inv_step st c : ledger_inv st → ledger_inv (step st c).
Proof.
  destruct c; simpl;
    auto using ledger_inv_add_book, ledger_inv_register_member,
               ledger_inv_issue_book, ledger_inv_return_book.
Qed.

Lemma ledger_inv_run cs : ∀ st, ledger_inv st → ledger_inv (run st cs).
Proof.
  induction cs as [|c cs IH]; intros st Hst; simpl; [done|].
  apply IH. by apply ledger_inv_step.
Qed.

Lemma ledger_inv_reachable bc mc nm cs :
  ledger_inv (run (Library.init bc mc nm) cs).
Proof. apply ledger_inv_run, ledger_inv_init. Qed.

End LedgerInvariant.

(** ** Issue followed by return *)

Section Workflow.

Implicit Types (st : Library.state) (b m now : Z).

(** With both identifiers known, [Library.return_book] reports what
    [Book.return_book] answers. *)
Lemma Library_return_book_outcome st b m now bk mem :
  Library.books (Library.self st) !! b = Some bk →
  Library.members (Library.self st) !! m = Some mem →
  snd (Library.return_book st b m now)
  = match snd (Book.return_book bk m now) with
    | inl message => Library.CannotReturn message
    | inr return_info => Library.Returned return_info
    end.
Proof.
  intros Hb Hm. unfold Library.return_book. rewrite Hb, Hm.
  by destruct (Book.return_book bk m now) as [bk' [msg|info]].
Qed.

(** A failed return through the Library changes nothing. *)
Lemma Library_return_without_loan st b m now bk mem :
  Library.books (Library.self st) !! b = Some bk →
  Library.members (Library.self st) !! m = Some mem →
  Book.issued_to bk !! m = None →
  Library.return_book st b m now = (st, Library.CannotReturn NotBorrowedByMember).
Proof.
  intros Hb Hm Hnone. unfold Library.return_book, Book.return_book.
  by rewrite Hb, Hm, Hnone.
Qed.

(** A book issued at [t0] and returned [d] whole days later. *)
Lemma issue_then_return_after (bk bk' : Book.t) m n t0 r d :
  Book.issue_book bk m n t0 = (bk', inr r) →
  snd (Book.return_book bk' m (t0 + timedelta_of_days d))
  = inr {| days_borrowed := d;
           is_overdue := loan_period_days <? d;
           overdue_days := if loan_period_days <? d then d - loan_period_days else 0;
           fine := if loan_period_days <? d
                   then (d - loan_period_days) * daily_fine_rate else 0 |}.
Proof.
  intros Hi. apply issue_book_success in Hi as (_ & _ & -> & Hto & _).
  unfold Book.return_book. rewrite Hto, lookup_insert_eq. simpl. f_equal.
  replace (t0 + timedelta_of_days d - t0) with (timedelta_of_days d) by lia.
  replace (t0 + timedelta_of_days d - (t0 + timedelta_of_days loan_period_days))
    with (timedelta_of_days (d - loan_period_days))
    by (unfold timedelta_of_days; lia).
  rewrite !timedelta_days_of_days.
  replace (t0 + timedelta_of_days loan_period_days <? t0 + timedelta_of_days d)
    with (loan_period_days <? d); [by destruct (loan_period_days <? d)|].
  unfold timedelta_of_days, microseconds_per_day.
  destruct (Z.ltb_spec loan_period_days d);
    symmetry; [apply Z.ltb_lt | apply Z.ltb_ge]; lia.
Qed.

End Workflow.

(** * The issue/return workflow of one Book *)

(** C1. Copy conservation. Through every finite sequence of [issue_book]
    and [return_book] calls on a Book, whether they succeed or fail, the
    available copies equal the total copies minus the number of records in
    [issued_to], and the available copies stay between 0 and the total.
    A Book starts in that condition ([book_inv_init]) and the merge of
    [add_book] keeps it ([book_inv_add_copies]). *)
Theorem copy_conservation (b : Book.t) (cs : list book_call) :
  book_inv b →
  Book.available_copies (book_run b cs)
    = Book.total_copies (book_run b cs)
      - Z.of_nat (size (Book.issued_to (book_run b cs)))
  ∧ 0 ≤ Book.available_copies (book_run b cs) ≤ Book.total_copies (book_run b cs).
Proof.
  revert b. induction cs as [|c cs IH]; intros b Hb; simpl; [exact Hb|].
  apply IH. by apply book_inv_step.
Qed.

Lemma copy_conservation_witness :
  let b := snd (Book.init 1 "Dune" "Frank Herbert" "9780441013593" 2) in
  let cs := [Issue 100 "Ann" 0; Issue 100 "Ann" 5; Issue 101 "Bob" 6;
             Issue 102 "Cy" 7; Return 103 8; Return 100 9] in
  Book.available_copies (book_run b cs)
    = Book.total_copies (book_run b cs)
      - Z.of_nat (size (Book.issued_to (book_run b cs)))
  ∧ 0 ≤ Book.available_copies (book_run b cs) ≤ Book.total_copies (book_run b cs).
Proof.
  intros b cs. apply (copy_conservation b cs).
  split; [reflexivity | simpl; lia].
Defined.

(** C2, as the code has it. After a successful issue to a member, and any
    further calls on the Book none of which is a return for that member, a
    second issue to the same member fails and leaves the Book as it is:
    with "Member already has this book" when a copy is still available,
    and with "No copies available" when none is, the availability test
    being the first one [issue_book] makes. *)
Theorem second_issue_fails (b : Book.t) (m : Z) (n : string) (now : Z)
    (b' : Book.t) (r : IssueRecord) (cs : list book_call)
    (n' : string) (now' : Z) :
  Book.issue_book b m n now = (b', inr r) →
  forallb (λ c, negb (returns_member m c)) cs = true →
  Book.issue_book (book_run b' cs) m n' now'
  = (book_run b' cs,
     inl (if Book.is_available (book_run b' cs)
          then AlreadyBorrowed else NoCopiesAvailable)).
Proof.
  intros Hi Hcs.
  apply issue_book_success in Hi as (_ & _ & _ & Hto & _).
  assert (is_Some (Book.issued_to (book_run b' cs) !! m)) as [r' Hr'].
  { apply book_run_keeps_loan; [done|]. rewrite Hto, lookup_insert_eq. eauto. }
  destruct (Book.is_available (book_run b' cs)) eqn:Hav.
  - apply is_available_true in Hav. by eapply issue_book_held.
  - apply is_available_false in Hav. by apply issue_book_unavailable.
Qed.

Lemma second_issue_fails_witness :
  let b := snd (Book.init 1 "Dune" "Frank Herbert" "9780441013593" 3) in
  let b' := fst (Book.issue_book b 100 "Ann" 0) in
  let cs := [Issue 101 "Bob" 1; Return 101 2] in
  Book.issue_book (book_run b' cs) 100 "Ann" 3
  = (book_run b' cs, inl AlreadyBorrowed).
Proof.
  intros b b' cs.
  apply (second_issue_fails b 100 "Ann" 0 b'
           (mkIssueRecord 100 "Ann" 0 (0 + timedelta_of_days loan_period_days)) cs
           "Ann" 3); reflexivity.
Defined.

(** C2, as stated, fails on a Book with one copy: the first issue to
    member 100 succeeds and takes the last copy, and the second issue to
    the same member fails with "No copies available", not with "Member
    already has this book". *)
Lemma second_issue_last_copy :
  let b := snd (Book.init 1 "Dune" "Frank Herbert" "9780441013593" 1) in
  ∃ b' r,
    Book.issue_book b 100 "Ann" 0 = (b', inr r)
    ∧ Book.issue_book b' 100 "Ann" 1 = (b', inl NoCopiesAvailable)
    ∧ snd (Book.issue_book b' 100 "Ann" 1) ≠ inl AlreadyBorrowed.
Proof.
  eexists _, _. split; [reflexivity|]. split; [reflexivity|].
  simpl. discriminate.
Qed.

(** C3. With no copy available, [issue_book] fails with "No copies
    available" for every member, and the Book is left as it is. *)
Theorem issue_without_copies (b : Book.t) (m : Z) (n : string) (now : Z) :
  Book.available_copies b = 0 →
  Book.issue_book b m n now = (b, inl NoCopiesAvailable).
Proof. intros Hav. apply issue_book_unavailable. lia. Qed.

Lemma issue_without_copies_witness :
  let b := snd (Book.init 1 "Dune" "Frank Herbert" "9780441013593" 1) in
  let b' := fst (Book.issue_book b 100 "Ann" 0) in
  Book.issue_book b' 101 "Bob" 1 = (b', inl NoCopiesAvailable).
Proof.
  intros b b'. apply (issue_without_copies b' 101 "Bob" 1). reflexivity.
Defined.

(** C4. Returning a book that is on loan to the member succeeds; the
    return is overdue exactly when [now] is strictly after the due date,
    so a return at the due date itself is not overdue; when overdue,
    [overdue_days] is the number of whole days in [now - due_date]; when
    not, it is 0; and the fine is [overdue_days] times the daily rate. *)
Theorem return_overdue_and_fine (b : Book.t) (m : Z) (now : Z) (r : IssueRecord) :
  Book.issued_to b !! m = Some r →
  ∃ b' info,
    Book.return_book b m now = (b', inr info)
    ∧ (is_overdue info = true ↔ due_date r < now)
    ∧ (now = due_date r → is_overdue info = false)
    ∧ (due_date r < now →
       overdue_days info * microseconds_per_day ≤ now - due_date r
         < (overdue_days info + 1) * microseconds_per_day)
    ∧ (now ≤ due_date r → overdue_days info = 0)
    ∧ fine info = overdue_days info * daily_fine_rate
    ∧ daily_fine_rate = 1.
Proof.
  intros Hr.
  destruct (return_book_success b m now r Hr)
    as (b' & info & Hret & _ & _ & _ & Hov & _ & Hdays & Hfine).
  exists b', info. split; [done|].
  rewrite Hov, Hfine, Hdays. split_and!.
  - apply Z.ltb_lt.
  - intros ->. apply Z.ltb_irrefl.
  - intros Hlt. rewrite (proj2 (Z.ltb_lt _ _) Hlt). apply timedelta_days_floor.
  - intros Hle. by rewrite (proj2 (Z.ltb_ge _ _) Hle).
  - destruct (due_date r <? now); lia.
  - reflexivity.
Qed.

Lemma return_overdue_and_fine_witness :
  let b := snd (Book.init 1 "Dune" "Frank Herbert" "9780441013593" 1) in
  let b' := fst (Book.issue_book b 100 "Ann" 0) in
  ∃ b'' info,
    Book.return_book b' 100 (timedelta_of_days 16 + 1) = (b'', inr info)
    ∧ (is_overdue info = true ↔ timedelta_of_days 14 < timedelta_of_days 16 + 1)
    ∧ (timedelta_of_days 16 + 1 = timedelta_of_days 14 → is_overdue info = false)
    ∧ (timedelta_of_days 14 < timedelta_of_days 16 + 1 →
       overdue_days info * microseconds_per_day
         ≤ timedelta_of_days 16 + 1 - timedelta_of_days 14
         < (overdue_days info + 1) * microseconds_per_day)
    ∧ (timedelta_of_days 16 + 1 ≤ timedelta_of_days 14 → overdue_days info = 0)
    ∧ fine info = overdue_days info * daily_fine_rate
    ∧ daily_fine_rate = 1.
Proof.
  intros b b'.
  apply (return_overdue_and_fine b' 100 (timedelta_of_days 16 + 1)
           (mkIssueRecord 100 "Ann" 0 (timedelta_of_days 14))).
  reflexivity.
Defined.

(** C7. Returning for a member who holds no record on the Book fails with
    "Book not issued to this member" and leaves the whole Book, its copy
    counts and [issued_to] included, as it is. *)
Theorem return_without_loan (b : Book.t) (m : Z) (now : Z) :
  Book.issued_to b !! m = None →
  Book.return_book b m now = (b, inl NotBorrowedByMember).
Proof. intros Hm. unfold Book.return_book. by rewrite Hm. Qed.

Lemma return_without_loan_witness :
  let b := snd (Book.init 1 "Dune" "Frank Herbert" "9780441013593" 2) in
  let b' := fst (Book.issue_book b 100 "Ann" 0) in
  Book.return_book b' 101 1 = (b', inl NotBorrowedByMember).
Proof.
  intros b b'. apply (return_without_loan b' 101 1). reflexivity.
Defined.

(** * The workflow through the Library *)

(** C5. Round trip. After a successful [Library.issue_book] of book [b]
    to member [m] at time [t0], returning it 14 days later is not overdue
    and carries no fine; returning it 20 days later is overdue by 6 days
    with a fine of 6 times the daily rate. *)
Theorem issue_return_round_trip (st : Library.state) (b m t0 : Z)
    (st' : Library.state) (r : IssueRecord) :
  Library.issue_book st b m t0 = (st', Library.Issued r) →
  snd (Library.return_book st' b m (t0 + timedelta_of_days 14))
  = Library.Returned {| days_borrowed := 14; is_overdue := false;
                        overdue_days := 0; fine := 0 |}
  ∧ snd (Library.return_book st' b m (t0 + timedelta_of_days 20))
  = Library.Returned {| days_borrowed := 20; is_overdue := true;
                        overdue_days := 6; fine := 6 * daily_fine_rate |}.
Proof.
  intros Hi.
  apply Library_issue_book_success in Hi
    as (bk & mem & bk' & _ & _ & Hbi & Hbs & Hms & _).
  assert (Library.books (Library.self st') !! b = Some bk') as Hb'
    by (by rewrite Hbs, lookup_insert_eq).
  assert (Library.members (Library.self st') !! m
          = Some (Member.borrow_book mem b)) as Hm'
    by (by rewrite Hms, lookup_insert_eq).
  split.
  - rewrite (Library_return_book_outcome _ _ _ _ _ _ Hb' Hm').
    by rewrite (issue_then_return_after _ _ _ _ _ _ 14 Hbi).
  - rewrite (Library_return_book_outcome _ _ _ _ _ _ Hb' Hm').
    by rewrite (issue_then_return_after _ _ _ _ _ _ 20 Hbi).
Qed.

Lemma issue_return_round_trip_witness :
  let st := run (Library.init 1 100 "Central City Library")
                [AddBook "dune" "frank herbert" "9780441013593" 2;
                 RegisterMember "ann lee" "Ann@Example.org"] in
  let st' := fst (Library.issue_book st 1 100 1000) in
  snd (Library.return_book st' 1 100 (1000 + timedelta_of_days 14))
  = Library.Returned {| days_borrowed := 14; is_overdue := false;
                        overdue_days := 0; fine := 0 |}
  ∧ snd (Library.return_book st' 1 100 (1000 + timedelta_of_days 20))
  = Library.Returned {| days_borrowed := 20; is_overdue := true;
                        overdue_days := 6; fine := 6 * daily_fine_rate |}.
Proof.
  intros st st'.
  apply (issue_return_round_trip st 1 100 1000 st'
           (mkIssueRecord 100 "Ann Lee" 1000 (1000 + timedelta_of_days 14))).
  reflexivity.
Defined.

(** C6. In every state the Library reaches, registering a book (with a
    positive number of copies) under an ISBN that is already indexed adds
    no entry: the existing Book gets [copies] more total and available
    copies and its identifier is returned. Registering a new ISBN with 2
    copies and then the same ISBN with 3 copies returns the same
    identifier twice and leaves one new Book with 5 copies in total. *)
Theorem add_book_same_isbn (bc mc : Z) (nm : string) (cs : list call) :
  let st := run (Library.init bc mc nm) cs in
  (∀ (t a i : string) (copies id : Z),
     0 < copies →
     Library.isbn_index (Library.self st) !! Str.strip i = Some id →
     ∃ bk bk' st',
       Library.books (Library.self st) !! id = Some bk
       ∧ Library.add_book st t a i copies = (st', inr (Some id))
       ∧ Library.books (Library.self st')
         = <[id := bk']> (Library.books (Library.self st))
       ∧ dom (Library.books (Library.self st'))
         = dom (Library.books (Library.self st))
       ∧ Book.total_copies bk' = Book.total_copies bk + copies
       ∧ Book.available_copies bk' = Book.available_copies bk + copies
       ∧ Book.issued_to bk' = Book.issued_to bk
       ∧ Library.isbn_index (Library.self st')
         = Library.isbn_index (Library.self st)
       ∧ Library.book_id_counter st' = Library.book_id_counter st)
  ∧ (∀ (t a i t' a' i' : string),
       Library.isbn_index (Library.self st) !! Str.strip i = None →
       Str.strip i' = Str.strip i →
       ∃ id st1 st2 bk,
         Library.add_book st t a i 2 = (st1, inr (Some id))
         ∧ Library.add_book st1 t' a' i' 3 = (st2, inr (Some id))
         ∧ Library.books (Library.self st) !! id = None
         ∧ Library.books (Library.self st2)
           = <[id := bk]> (Library.books (Library.self st))
         ∧ Book.total_copies bk = 5
         ∧ Book.available_copies bk = 5
         ∧ size (Library.books (Library.self st2))
           = S (size (Library.books (Library.self st)))).
Proof.
  intros st.
  pose proof (ledger_inv_reachable bc mc nm cs) as [I1 _ I3 _ _].
  fold st in I1, I3. split.
  - intros t a i copies id Hc Hidx.
    destruct (I3 _ _ Hidx) as [bk Hbk].
    exists bk, (Book.add_copies bk copies). eexists.
    unfold Library.add_book.
    rewrite (proj2 (Z.leb_gt copies 0) Hc), Hidx, Hbk.
    split_and!; try reflexivity. simpl.
    apply dom_insert_lookup_L. eauto.
  - intros t a i t' a' i' Hidx Hi'.
    assert (Library.books (Library.self st) !! Library.book_id_counter st = None)
      as Hfresh.
    { destruct (Library.books (Library.self st) !! Library.book_id_counter st)
        as [bk|] eqn:Hb; [|done].
      apply I1 in Hb. lia. }
    exists (Library.book_id_counter st). eexists _, _, _.
    split.
    { unfold Library.add_book. simpl. rewrite Hidx. reflexivity. }
    split.
    { unfold Library.add_book. simpl. rewrite Hi', !lookup_insert_eq. reflexivity. }
    split; [done|]. simpl. rewrite insert_insert_eq.
    split_and!; try reflexivity.
    by apply map_size_insert_None.
Qed.

Lemma add_book_same_isbn_witness :
  let st := run (Library.init 1 100 "Central City Library")
                [AddBook "emma" "jane austen" "9780141439587" 1] in
  ∃ id st1 st2 bk,
    Library.add_book st "dune" "frank herbert" "9780441013593" 2
      = (st1, inr (Some id))
    ∧ Library.add_book st1 "Dune" "F. Herbert" " 9780441013593 " 3
      = (st2, inr (Some id))
    ∧ Library.books (Library.self st) !! id = None
    ∧ Library.books (Library.self st2)
      = <[id := bk]> (Library.books (Library.self st))
    ∧ Book.total_copies bk = 5
    ∧ Book.available_copies bk = 5
    ∧ size (Library.books (Library.self st2))
      = S (size (Library.books (Library.self st))).
Proof.
  intros st.
  apply (proj2 (add_book_same_isbn 1 100 "Central City Library"
                  [AddBook "emma" "jane austen" "9780141439587" 1]));
    reflexivity.
Defined.

(** C8. In every state the Library reaches, a book identifier is in a
    member's borrowed list exactly when that Book holds a record for the
    member in [issued_to]. After a successful [issue_book] the member's
    list holds the book identifier once; after a successful [return_book]
    it holds it no more. *)
Theorem borrowed_list_matches_loans (bc mc : Z) (nm : string) (cs : list call) :
  let st := run (Library.init bc mc nm) cs in
  (∀ b m : Z, b ∈ borrowed st m ↔ has_loan st b m = true)
  ∧ (∀ (b m now : Z) (st' : Library.state) (r : IssueRecord),
       Library.issue_book st b m now = (st', Library.Issued r) →
       list_count b (borrowed st' m) = 1%nat)
  ∧ (∀ (b m now : Z) (st' : Library.state) (info : ReturnInfo),
       Library.return_book st b m now = (st', Library.Returned info) →
       list_count b (borrowed st' m) = 0%nat).
Proof.
  intros st.
  pose proof (ledger_inv_reachable bc mc nm cs) as Hinv. fold st in Hinv.
  split_and!.
  - intros b m. rewrite list_count_elem_of, (inv_borrowed _ Hinv).
    destruct (has_loan st b m); split; (done || lia).
  - intros b m now st' r Hi.
    pose proof (ledger_inv_issue_book st b m now Hinv) as Hinv'.
    rewrite Hi in Hinv'. simpl in Hinv'.
    rewrite (inv_borrowed _ Hinv').
    apply Library_issue_book_success in Hi
      as (bk & mem & bk' & _ & _ & Hbi & Hbs & _).
    apply issue_book_success in Hbi as (_ & _ & _ & Hto & _).
    unfold has_loan. by rewrite Hbs, lookup_insert_eq, Hto, lookup_insert_eq.
  - intros b m now st' info Hr.
    pose proof (ledger_inv_return_book st b m now Hinv) as Hinv'.
    rewrite Hr in Hinv'. simpl in Hinv'.
    rewrite (inv_borrowed _ Hinv').
    apply Library_return_book_success in Hr
      as (bk & mem & bk' & mem' & _ & _ & Hbr & Hbs & _).
    apply return_book_inv_success in Hbr as (_ & Hto & _).
    unfold has_loan. by rewrite Hbs, lookup_insert_eq, Hto, lookup_delete_eq.
Qed.

Lemma borrowed_list_matches_loans_witness :
  let st := run (Library.init 1 100 "Central City Library")
                [AddBook "dune" "frank herbert" "9780441013593" 2;
                 RegisterMember "ann lee" "Ann@Example.org";
                 RegisterMember "bob ray" "bob@example.org";
                 IssueBook 1 101 0] in
  list_count 1 (borrowed (fst (Library.issue_book st 1 100 5)) 100) = 1%nat
  ∧ list_count 1 (borrowed (fst (Library.return_book st 1 101 9)) 101) = 0%nat.
Proof.
  intros st.
  pose proof (borrowed_list_matches_loans 1 100 "Central City Library"
                [AddBook "dune" "frank herbert" "9780441013593" 2;
                 RegisterMember "ann lee" "Ann@Example.org";
                 RegisterMember "bob ray" "bob@example.org";
                 IssueBook 1 101 0]) as (_ & Hissue & Hreturn).
  split.
  - apply (Hissue 1 100 5 _
             (mkIssueRecord 100 "Ann Lee" 5 (5 + timedelta_of_days 14))).
    reflexivity.
  - apply (Hreturn 1 101 9 _
             {| days_borrowed := 0; is_overdue := false;
                overdue_days := 0; fine := 0 |}).
    reflexivity.
Defined.

(** * Further properties of the Library *)

Section CatalogFacts.

Implicit Types (st : Library.state) (b m now : Z).

Lemma timedelta_days_nonneg (delta : Z) : 0 ≤ delta → 0 ≤ timedelta_days delta.
Proof.
  intros Hd. unfold timedelta_days, microseconds_per_day.
  apply Z.div_pos; lia.
Qed.

(** The days and the fine of a return are never negative. *)
Lemma return_book_fine_nonneg (bk bk' : Book.t) m now info :
  Book.return_book bk m now = (bk', inr info) →
  0 ≤ overdue_days info
  ∧ fine info = overdue_days info * daily_fine_rate
  ∧ (is_overdue info = false → overdue_days info = 0).
Proof.
  unfold Book.return_book.
  destruct (Book.issued_to bk !! m) as [r|]; [|discriminate].
  intros [= <- <-]. simpl.
  destruct (Z.ltb_spec (due_date r) now) as [Hlt|Hge].
  - split_and!; [apply timedelta_days_nonneg; lia|done|done].
  - split_and!; [lia|done|done].
Qed.

(** The member record after a successful [Library.return_book] keeps its
    identity. *)
Lemma Library_return_book_member st b m now st' info mem :
  Library.return_book st b m now = (st', Library.Returned info) →
  Library.members (Library.self st) !! m = Some mem →
  ∃ mem',
    Library.members (Library.self st')
      = <[m := mem']> (Library.members (Library.self st))
    ∧ Member.member_id mem' = Member.member_id mem
    ∧ Member.name mem' = Member.name mem
    ∧ Member.email mem' = Member.email mem
    ∧ Member.borrowed_books mem' = list_remove b (Member.borrowed_books mem)
    ∧ Member.total_fines mem'
      = Member.total_fines mem + (if is_overdue info then fine info else 0).
Proof.
  unfold Library.return_book. intros Hr Hm. rewrite Hm in Hr.
  destruct (Library.books (Library.self st) !! b) as [bk|]; [|discriminate].
  destruct (Book.return_book bk m now) as [bk' [msg|info']]; [discriminate|].
  injection Hr as <- <-. eexists. simpl. split; [reflexivity|].
  unfold Member.return_book.
  destruct (is_overdue info'), (decide (b ∈ Member.borrowed_books mem)); simpl;
    rewrite ?list_remove_not_elem by done; split_and!; (done || lia).
Qed.

Lemma catalog_wf_init bc mc nm : catalog_wf (Library.init bc mc nm).
Proof.
  split; simpl; intros *; rewrite lookup_empty; discriminate.
Qed.

Lemma is_empty_title (s : string) : Str.is_empty (Str.title s) = Str.is_empty s.
Proof.
  unfold Str.title. destruct s as [|c s]; simpl; [done|].
  by destruct (Str.isupper c || Str.islower c).
Qed.

Lemma is_empty_lower (s : string) : Str.is_empty (Str.lower s) = Str.is_empty s.
Proof. by destruct s. Qed.

Lemma catalog_wf_add_book st t a i copies :
  ledger_inv st → catalog_wf st →
  catalog_wf (fst (Library.add_book st t a i copies)).
Proof.
  intros [I1 _ _ _ _] Hwf. pose proof Hwf as [W1 W2 W3 W4 W5 W6].
  unfold Library.add_book.
  destruct (copies <=? 0) eqn:Hc; simpl; [done|]. apply Z.leb_gt in Hc.
  destruct (Library.isbn_index (Library.self st) !! Str.strip i)
    as [existing|] eqn:Hidx.
  - destruct (Library.books (Library.self st) !! existing) as [bk|] eqn:Hbk;
      simpl; [|done].
    split; simpl.
    + intros b0 bk0. rewrite lookup_insert_Some.
      intros [[<- <-]|[_ H]]; simpl; eauto.
    + intros b0 bk0. rewrite lookup_insert_Some.
      intros [[<- <-]|[_ H]]; simpl; [|eauto]. apply W2 in Hbk. lia.
    + intros b0 bk0. rewrite lookup_insert_Some.
      intros [[<- <-]|[_ H]]; simpl; eauto.
    + intros i0 b0 H. destruct (W4 _ _ H) as (bk0 & Hb0 & Hi0).
      destruct (decide (existing = b0)) as [<-|Hne].
      * exists (Book.add_copies bk copies). rewrite lookup_insert_eq.
        split; [done|]. simpl. congruence.
      * exists bk0. by rewrite lookup_insert_ne.
    + done.
    + intros b0 bk0 m r. rewrite lookup_insert_Some.
      intros [[<- <-]|[_ H]]; simpl; eauto.
  - assert (Library.books (Library.self st) !! Library.book_id_counter st = None)
      as Hfresh.
    { destruct (Library.books (Library.self st) !! Library.book_id_counter st)
        as [bk|] eqn:Hb; [|done].
      apply I1 in Hb. lia. }
    split; simpl.
    + intros b0 bk0. rewrite lookup_insert_Some.
      intros [[<- <-]|[_ H]]; simpl; eauto.
    + intros b0 bk0. rewrite lookup_insert_Some.
      intros [[<- <-]|[_ H]]; simpl; [lia|eauto].
    + intros b0 bk0. rewrite lookup_insert_Some.
      intros [[<- <-]|[Hne H]]; simpl; [by rewrite lookup_insert_eq|].
      pose proof (W3 _ _ H) as Hi0.
      rewrite lookup_insert_ne; [done|]. intros Heq. congruence.
    + intros i0 b0. rewrite lookup_insert_Some.
      intros [[<- <-]|[Hne H]].
      * eexists. by rewrite lookup_insert_eq.
      * destruct (W4 _ _ H) as (bk0 & Hb0 & Hi0). exists bk0.
        rewrite lookup_insert_ne; [done|]. intros <-. congruence.
    + done.
    + intros b0 bk0 m r. rewrite lookup_insert_Some.
      intros [[<- <-]|[_ H]]; simpl; [|eauto].
      rewrite lookup_empty. discriminate.
Qed.

Lemma catalog_wf_register_member st nm em :
  ledger_inv st → catalog_wf st →
  catalog_wf (fst (Library.register_member st nm em)).
Proof.
  intros [_ I2 _ _ _] Hwf. pose proof Hwf as [W1 W2 W3 W4 W5 W6].
  unfold Library.register_member.
  destruct (Str.is_empty (Str.title (Str.strip nm))
            || Str.is_empty (Str.lower (Str.strip em))) eqn:He; simpl; [done|].
  apply orb_false_iff in He as [Hn He].
  assert (Library.members (Library.self st) !! Library.member_id_counter st = None)
    as Hfresh.
  { destruct (Library.members (Library.self st) !! Library.member_id_counter st)
      as [mem|] eqn:Hm; [|done].
    apply I2 in Hm. lia. }
  split; simpl; eauto.
  - intros m mem. rewrite lookup_insert_Some.
    intros [[<- <-]|[_ H]]; simpl; [done|eauto].
  - intros b bk m r Hb Hr. destruct (W6 _ _ _ _ Hb Hr) as (? & ? & mem & Hm & Hnm).
    split_and!; [done..|]. exists mem. split; [|done].
    rewrite lookup_insert_ne; [done|]. intros <-. congruence.
Qed.

Lemma catalog_wf_issue_book st b m now :
  catalog_wf st → catalog_wf (fst (Library.issue_book st b m now)).
Proof.
  intros Hwf. pose proof Hwf as [W1 W2 W3 W4 W5 W6].
  destruct (Library.issue_book st b m now) as [st' o] eqn:Hi. simpl.
  destruct o as [| |msg|r];
    try (by rewrite (Library_issue_book_failure _ _ _ _ _ _ Hi)).
  apply Library_issue_book_success in Hi
    as (bk & mem & bk' & Hb & Hm & Hbi & Hbs & Hms & Hidx & _).
  assert (Book.book_id bk' = Book.book_id bk ∧ Book.isbn bk' = Book.isbn bk)
    as [Hid Hisbn].
  { revert Hbi. unfold Book.issue_book.
    destruct (negb (Book.is_available bk)); [discriminate|].
    destruct (Book.issued_to bk !! m); [discriminate|]. by intros [= <- _]. }
  apply issue_book_success in Hbi as (_ & _ & Hr & Hto & _ & Htot).
  split.
  - intros b0 bk0. rewrite Hbs, lookup_insert_Some.
    intros [[<- <-]|[_ H]]; [|eauto]. rewrite Hid. eauto.
  - intros b0 bk0. rewrite Hbs, lookup_insert_Some.
    intros [[<- <-]|[_ H]]; [|eauto]. rewrite Htot. eauto.
  - intros b0 bk0. rewrite Hbs, Hidx, lookup_insert_Some.
    intros [[<- <-]|[_ H]]; [|eauto]. rewrite Hisbn. eauto.
  - intros i0 b0. rewrite Hbs, Hidx. intros H.
    destruct (W4 _ _ H) as (bk0 & Hb0 & Hi0).
    destruct (decide (b = b0)) as [<-|Hne].
    + exists bk'. rewrite lookup_insert_eq. split; [done|]. congruence.
    + exists bk0. by rewrite lookup_insert_ne.
  - intros m0 mem0. rewrite Hms, lookup_insert_Some.
    intros [[<- <-]|[_ H]]; simpl; eauto.
  - assert (∀ m0 mem0, Library.members (Library.self st) !! m0 = Some mem0 →
            ∃ mem1, Library.members (Library.self st') !! m0 = Some mem1
                    ∧ Member.name mem1 = Member.name mem0) as Hkeep.
    { intros m0 mem0 H0. rewrite Hms.
      destruct (decide (m = m0)) as [<-|Hne].
      - rewrite lookup_insert_eq. eexists. split; [done|]. simpl. congruence.
      - rewrite lookup_insert_ne by done. eauto. }
    intros b0 bk0 m0 r0. rewrite Hbs, lookup_insert_Some.
    intros [[<- <-]|[_ H]] Hr0.
    + rewrite Hto, lookup_insert_Some in Hr0.
      destruct Hr0 as [[<- <-]|[_ Hr0]].
      * subst r. simpl. split_and!; [done..|]. by apply Hkeep.
      * destruct (W6 _ _ _ _ Hb Hr0) as (? & ? & mem0 & Hm0 & Hn0).
        split_and!; [done..|].
        destruct (Hkeep _ _ Hm0) as (mem1 & ? & ?). exists mem1. split; congruence.
    + destruct (W6 _ _ _ _ H Hr0) as (? & ? & mem0 & Hm0 & Hn0).
      split_and!; [done..|].
      destruct (Hkeep _ _ Hm0) as (mem1 & ? & ?). exists mem1. split; congruence.
Qed.

Lemma catalog_wf_return_book st b m now :
  catalog_wf st → catalog_wf (fst (Library.return_book st b m now)).
Proof.
  intros Hwf. pose proof Hwf as [W1 W2 W3 W4 W5 W6].
  destruct (Library.return_book st b m now) as [st' o] eqn:Hi. simpl.
  destruct o as [| |msg|info];
    try (by rewrite (Library_return_book_failure _ _ _ _ _ _ Hi)).
  pose proof Hi as Hi2.
  apply Library_return_book_success in Hi
    as (bk & mem & bk' & _ & Hb & Hm & Hbr & Hbs & _ & _ & _ & Hidx & _).
  destruct (Library_return_book_member _ _ _ _ _ _ _ Hi2 Hm)
    as (mem' & Hms & Hmid & Hmn & Hme & _ & Hfines).
  destruct (return_book_fine_nonneg _ _ _ _ _ Hbr) as (Hod & Hfine & _).
  assert (Book.book_id bk' = Book.book_id bk ∧ Book.isbn bk' = Book.isbn bk)
    as [Hid Hisbn].
  { revert Hbr. unfold Book.return_book.
    destruct (Book.issued_to bk !! m); [|discriminate]. by intros [= <- _]. }
  apply return_book_inv_success in Hbr as (_ & Hto & _ & Htot).
  split.
  - intros b0 bk0. rewrite Hbs, lookup_insert_Some.
    intros [[<- <-]|[_ H]]; [|eauto]. rewrite Hid. eauto.
  - intros b0 bk0. rewrite Hbs, lookup_insert_Some.
    intros [[<- <-]|[_ H]]; [|eauto]. rewrite Htot. eauto.
  - intros b0 bk0. rewrite Hbs, Hidx, lookup_insert_Some.
    intros [[<- <-]|[_ H]]; [|eauto]. rewrite Hisbn. eauto.
  - intros i0 b0. rewrite Hbs, Hidx. intros H.
    destruct (W4 _ _ H) as (bk0 & Hb0 & Hi0).
    destruct (decide (b = b0)) as [<-|Hne].
    + exists bk'. rewrite lookup_insert_eq. split; [done|]. congruence.
    + exists bk0. by rewrite lookup_insert_ne.
  - intros m0 mem0. rewrite Hms, lookup_insert_Some.
    intros [[<- <-]|[_ H]]; [|eauto].
    destruct (W5 _ _ Hm) as (? & ? & ? & ?).
    rewrite Hmid, Hmn, Hme, Hfines. split_and!; [done..|].
    unfold daily_fine_rate in Hfine. destruct (is_overdue info); lia.
  - assert (∀ m0 mem0, Library.members (Library.self st) !! m0 = Some mem0 →
            ∃ mem1, Library.members (Library.self st') !! m0 = Some mem1
                    ∧ Member.name mem1 = Member.name mem0) as Hkeep.
    { intros m0 mem0 H0. rewrite Hms.
      destruct (decide (m = m0)) as [<-|Hne].
      - rewrite lookup_insert_eq. eexists. split; [done|]. congruence.
      - rewrite lookup_insert_ne by done. eauto. }
    intros b0 bk0 m0 r0. rewrite Hbs, lookup_insert_Some.
    intros [[<- <-]|[_ H]] Hr0.
    + rewrite Hto, lookup_delete_Some in Hr0. destruct Hr0 as [_ Hr0].
      destruct (W6 _ _ _ _ Hb Hr0) as (? & ? & mem0 & Hm0 & Hn0).
      split_and!; [done..|].
      destruct (Hkeep _ _ Hm0) as (mem1 & ? & ?). exists mem1. split; congruence.
    + destruct (W6 _ _ _ _ H Hr0) as (? & ? & mem0 & Hm0 & Hn0).
      split_and!; [done..|].
      destruct (Hkeep _ _ Hm0) as (mem1 & ? & ?). exists mem1. split; congruence.
Qed.

Lemma ledger_and_catalog_run cs : ∀ st,
  ledger_inv st → catalog_wf st →
  ledger_inv (run st cs) ∧ catalog_wf (run st cs).
Proof.
  induction cs as [|c cs IH]; intros st Hinv Hwf; simpl; [done|].
  apply IH; [by apply ledger_inv_step|].
  destruct c; simpl;
    auto using catalog_wf_add_book, catalog_wf_register_member,
               catalog_wf_issue_book, catalog_wf_return_book.
Qed.

Lemma catalog_wf_reachable bc mc nm cs :
  catalog_wf (run (Library.init bc mc nm) cs).
Proof.
  apply ledger_and_catalog_run; [apply ledger_inv_init | apply catalog_wf_init].
Qed.

End CatalogFacts.

(** ** What every call keeps *)

Section Persistence.

Implicit Types (st : Library.state) (b m now : Z).

Lemma same_book_refl bk : same_book bk bk.
Proof. unfold same_book. split_and!; (done || lia). Qed.

Lemma same_book_trans bk1 bk2 bk3 :
  same_book bk1 bk2 → same_book bk2 bk3 → same_book bk1 bk3.
Proof. unfold same_book. intros (?&?&?&?&?) (?&?&?&?&?). split_and!; (congruence || lia). Qed.

Lemma same_member_refl mem : same_member mem mem.
Proof. unfold same_member. split_and!; (done || lia). Qed.

Lemma same_member_trans mem1 mem2 mem3 :
  same_member mem1 mem2 → same_member mem2 mem3 → same_member mem1 mem3.
Proof. unfold same_member. intros (?&?&?&?) (?&?&?&?). split_and!; (congruence || lia). Qed.

Lemma Book_issue_book_same (bk bk' : Book.t) m n now res :
  Book.issue_book bk m n now = (bk', res) → same_book bk bk'.
Proof.
  unfold Book.issue_book.
  destruct (negb (Book.is_available bk)).
  { intros [= <- _]. apply same_book_refl. }
  destruct (Book.issued_to bk !! m); intros [= <- _];
    [apply same_book_refl|].
  unfold same_book. simpl. split_and!; (done || lia).
Qed.

Lemma Book_return_book_same (bk bk' : Book.t) m now res :
  Book.return_book bk m now = (bk', res) → same_book bk bk'.
Proof.
  unfold Book.return_book.
  destruct (Book.issued_to bk !! m); intros [= <- _];
    [|apply same_book_refl].
  unfold same_book. simpl. split_and!; (done || lia).
Qed.

Lemma step_counters st c :
  Library.book_id_counter st ≤ Library.book_id_counter (step st c)
  ∧ Library.member_id_counter st ≤ Library.member_id_counter (step st c).
Proof.
  destruct c as [t a i n|nm em|b m now|b m now]; simpl.
  - unfold Library.add_book. destruct (n <=? 0); simpl; [lia|].
    destruct (Library.isbn_index (Library.self st) !! Str.strip i); simpl; [|lia].
    destruct (Library.books (Library.self st) !! z); simpl; lia.
  - unfold Library.register_member.
    destruct (_ || _); simpl; lia.
  - destruct (Library.issue_book st b m now) as [st' o] eqn:Hi. simpl.
    destruct o; try (rewrite (Library_issue_book_failure _ _ _ _ _ _ Hi); [lia|done]).
    apply Library_issue_book_success in Hi as (?&?&?&?&?&?&?&?&?&->&->). lia.
  - destruct (Library.return_book st b m now) as [st' o] eqn:Hi. simpl.
    destruct o; try (rewrite (Library_return_book_failure _ _ _ _ _ _ Hi); [lia|done]).
    apply Library_return_book_success in Hi as (?&?&?&?&?&?&?&?&?&?&?&?&->&->). lia.
Qed.

Lemma step_keeps_book st c b bk :
  ledger_inv st →
  Library.books (Library.self st) !! b = Some bk →
  ∃ bk', Library.books (Library.self (step st c)) !! b = Some bk'
         ∧ same_book bk bk'.
Proof.
  intros [I1 _ _ _ _] Hb.
  destruct c as [t a i n|nm em|b0 m now|b0 m now]; simpl.
  - unfold Library.add_book. destruct (n <=? 0) eqn:Hn; simpl.
    { eauto using same_book_refl. }
    apply Z.leb_gt in Hn.
    destruct (Library.isbn_index (Library.self st) !! Str.strip i) as [e|]; simpl.
    + destruct (Library.books (Library.self st) !! e) as [bke|] eqn:He; simpl.
      * destruct (decide (e = b)) as [->|Hne].
        -- rewrite lookup_insert_eq. eexists. split; [done|].
           assert (bke = bk) as -> by congruence.
           unfold same_book. simpl. split_and!; (done || lia).
        -- rewrite lookup_insert_ne by done. eauto using same_book_refl.
      * eauto using same_book_refl.
    + rewrite lookup_insert_ne; [eauto using same_book_refl|].
      apply I1 in Hb. lia.
  - unfold Library.register_member. destruct (_ || _); simpl;
      eauto using same_book_refl.
  - destruct (Library.issue_book st b0 m now) as [st' o] eqn:Hi. simpl.
    destruct o;
      try (rewrite (Library_issue_book_failure _ _ _ _ _ _ Hi) by done;
           eauto using same_book_refl).
    apply Library_issue_book_success in Hi
      as (bk0 & mem & bk' & Hb0 & _ & Hbi & -> & _).
    destruct (decide (b0 = b)) as [->|Hne].
    + rewrite lookup_insert_eq. eexists. split; [done|].
      assert (bk0 = bk) as -> by congruence.
      eauto using Book_issue_book_same.
    + rewrite lookup_insert_ne by done. eauto using same_book_refl.
  - destruct (Library.return_book st b0 m now) as [st' o] eqn:Hi. simpl.
    destruct o;
      try (rewrite (Library_return_book_failure _ _ _ _ _ _ Hi) by done;
           eauto using same_book_refl).
    apply Library_return_book_success in Hi
      as (bk0 & mem & bk' & mem' & Hb0 & _ & Hbr & -> & _).
    destruct (decide (b0 = b)) as [->|Hne].
    + rewrite lookup_insert_eq. eexists. split; [done|].
      assert (bk0 = bk) as -> by congruence.
      eauto using Book_return_book_same.
    + rewrite lookup_insert_ne by done. eauto using same_book_refl.
Qed.

Lemma step_keeps_member st c m mem :
  ledger_inv st →
  Library.members (Library.self st) !! m = Some mem →
  ∃ mem', Library.members (Library.self (step st c)) !! m = Some mem'
          ∧ same_member mem mem'.
Proof.
  intros [_ I2 _ _ _] Hm.
  destruct c as [t a i n|nm em|b m0 now|b m0 now]; simpl.
  - unfold Library.add_book. destruct (n <=? 0); simpl;
      [eauto using same_member_refl|].
    destruct (Library.isbn_index (Library.self st) !! Str.strip i) as [e|]; simpl;
      [|eauto using same_member_refl].
    destruct (Library.books (Library.self st) !! e); simpl;
      eauto using same_member_refl.
  - unfold Library.register_member. destruct (_ || _); simpl;
      [eauto using same_member_refl|].
    rewrite lookup_insert_ne; [eauto using same_member_refl|].
    apply I2 in Hm. lia.
  - destruct (Library.issue_book st b m0 now) as [st' o] eqn:Hi. simpl.
    destruct o;
      try (rewrite (Library_issue_book_failure _ _ _ _ _ _ Hi) by done;
           eauto using same_member_refl).
    apply Library_issue_book_success in Hi
      as (bk0 & mem0 & bk' & _ & Hm0 & _ & _ & -> & _).
    destruct (decide (m0 = m)) as [->|Hne].
    + rewrite lookup_insert_eq. eexists. split; [done|].
      assert (mem0 = mem) as -> by congruence.
      unfold same_member. simpl. split_and!; (done || lia).
    + rewrite lookup_insert_ne by done. eauto using same_member_refl.
  - destruct (Library.return_book st b m0 now) as [st' o] eqn:Hi. simpl.
    destruct o;
      try (rewrite (Library_return_book_failure _ _ _ _ _ _ Hi) by done;
           eauto using same_member_refl).
    destruct (decide (m0 = m)) as [->|Hne].
    + destruct (Library_return_book_member _ _ _ _ _ _ _ Hi Hm)
        as (mem' & -> & Hid & Hn & He & _ & Hf).
      apply Library_return_book_success in Hi
        as (?&?&?&?&_&_&Hbr&_).
      destruct (return_book_fine_nonneg _ _ _ _ _ Hbr) as (Hod & Hfine & _).
      rewrite lookup_insert_eq. eexists. split; [done|].
      unfold same_member. split_and!; [done..|].
      unfold daily_fine_rate in Hfine. destruct (is_overdue return_info); lia.
    + apply Library_return_book_success in Hi
        as (?&?&?&?&_&_&_&_&->&_).
      rewrite lookup_insert_ne by done. eauto using same_member_refl.
Qed.

Lemma run_keeps cs : ∀ st,
  ledger_inv st →
  Library.book_id_counter st ≤ Library.book_id_counter (run st cs)
  ∧ (∀ b bk, Library.books (Library.self st) !! b = Some bk →
       ∃ bk', Library.books (Library.self (run st cs)) !! b = Some bk'
              ∧ same_book bk bk')
  ∧ (∀ m mem, Library.members (Library.self st) !! m = Some mem →
       ∃ mem', Library.members (Library.self (run st cs)) !! m = Some mem'
               ∧ same_member mem mem').
Proof.
  induction cs as [|c cs IH]; intros st Hinv; simpl.
  { split_and!; [lia|eauto using same_book_refl|eauto using same_member_refl]. }
  destruct (IH (step st c) (ledger_inv_step _ c Hinv)) as (Hc & Hb & Hm).
  pose proof (step_counters st c) as [Hc1 _].
  split_and!; [lia| |].
  - intros b bk H. destruct (step_keeps_book st c b bk Hinv H) as (bk1 & H1 & Hs1).
    destruct (Hb _ _ H1) as (bk2 & H2 & Hs2).
    eauto using same_book_trans.
  - intros m mem H. destruct (step_keeps_member st c m mem Hinv H) as (m1 & H1 & Hs1).
    destruct (Hm _ _ H1) as (m2 & H2 & Hs2).
    eauto using same_member_trans.
Qed.

End Persistence.

(** * Registration *)

(** X1. In every state the Library reaches, [add_book] raises nothing.
    With [copies <= 0] it returns [None] and changes nothing. With
    [copies > 0] it returns an identifier; afterwards the index maps the
    stripped ISBN to that identifier, the Book stored under it carries
    that ISBN and that identifier and has at least [copies] available
    copies, and the members are untouched. *)
Theorem add_book_outcome (bc mc : Z) (nm : string) (cs : list call)
    (t a i : string) (copies : Z) :
  let st := run (Library.init bc mc nm) cs in
  (copies ≤ 0 ∧ Library.add_book st t a i copies = (st, inr None))
  ∨ (0 < copies
     ∧ ∃ id st' bk,
         Library.add_book st t a i copies = (st', inr (Some id))
         ∧ Library.isbn_index (Library.self st') !! Str.strip i = Some id
         ∧ Library.books (Library.self st') !! id = Some bk
         ∧ Book.isbn bk = Str.strip i
         ∧ Book.book_id bk = id
         ∧ copies ≤ Book.available_copies bk
         ∧ Library.members (Library.self st') = Library.members (Library.self st)).
Proof.
  intros st.
  pose proof (ledger_inv_reachable bc mc nm cs) as [I1 _ I3 I4 _].
  pose proof (catalog_wf_reachable bc mc nm cs) as [W1 _ _ W4 _ _].
  fold st in I1, I3, I4, W1, W4.
  unfold Library.add_book.
  destruct (Z.leb_spec copies 0) as [Hle|Hgt]; [by left|right].
  split; [done|].
  destruct (Library.isbn_index (Library.self st) !! Str.strip i)
    as [existing|] eqn:Hidx.
  - destruct (W4 _ _ Hidx) as (bk & Hbk & Hisbn). rewrite Hbk.
    exists existing. eexists _, _. split; [reflexivity|]. simpl.
    rewrite lookup_insert_eq. split_and!; try done; simpl.
    + eauto.
    + destruct (I4 _ _ Hbk) as [_ Hrange]. lia.
  - eexists _, _, _. split; [reflexivity|]. simpl.
    rewrite !lookup_insert_eq. split_and!; (done || lia).
Qed.

(** X2. In every state the Library reaches, the ISBN index and the books
    agree: the index maps an ISBN to an identifier exactly when the Book
    stored under that identifier carries that ISBN; two stored Books with
    the same ISBN are the same entry; and each Book is stored under its
    own [book_id] and has at least one copy in total. *)
Theorem isbn_index_consistent (bc mc : Z) (nm : string) (cs : list call) :
  let st := run (Library.init bc mc nm) cs in
  (∀ (i : string) (b : Z),
     Library.isbn_index (Library.self st) !! i = Some b
     ↔ ∃ bk, Library.books (Library.self st) !! b = Some bk ∧ Book.isbn bk = i)
  ∧ (∀ (b1 b2 : Z) (bk1 bk2 : Book.t),
       Library.books (Library.self st) !! b1 = Some bk1 →
       Library.books (Library.self st) !! b2 = Some bk2 →
       Book.isbn bk1 = Book.isbn bk2 → b1 = b2)
  ∧ (∀ (b : Z) (bk : Book.t),
       Library.books (Library.self st) !! b = Some bk →
       Book.book_id bk = b ∧ 1 ≤ Book.total_copies bk).
Proof.
  intros st.
  pose proof (catalog_wf_reachable bc mc nm cs) as [W1 W2 W3 W4 _ _].
  fold st in W1, W2, W3, W4. split_and!.
  - intros i b. split; [apply W4|]. intros (bk & Hb & <-). by apply W3.
  - intros b1 b2 bk1 bk2 H1 H2 Heq.
    apply W3 in H1, H2. rewrite Heq in H1. congruence.
  - intros b bk Hb. eauto.
Qed.

Lemma isbn_index_consistent_witness :
  let st := run (Library.init 1 100 "Central City Library")
                [AddBook "dune" "frank herbert" "9780441013593" 2;
                 AddBook "emma" "jane austen" " 9780141439587" 1;
                 AddBook "Dune" "Herbert" "9780441013593 " 4] in
  Library.isbn_index (Library.self st) !! "9780141439587" = Some 2
  ∧ size (Library.books (Library.self st)) = 2%nat.
Proof.
  intros st. split; [|reflexivity].
  apply (proj1 (isbn_index_consistent 1 100 "Central City Library"
                  [AddBook "dune" "frank herbert" "9780441013593" 2;
                   AddBook "emma" "jane austen" " 9780141439587" 1;
                   AddBook "Dune" "Herbert" "9780441013593 " 4])).
  eexists. split; reflexivity.
Defined.

(** X3. Books are never deleted and identifiers are never reused. A Book
    of a reachable state is still stored under the same identifier after
    any further calls, with the same [book_id], title, author and ISBN and
    a total that has not gone down; and a later registration of an ISBN
    that is not indexed returns a larger identifier. *)
Theorem books_persist (bc mc : Z) (nm : string) (cs cs' : list call)
    (b : Z) (bk : Book.t) :
  let st := run (Library.init bc mc nm) cs in
  Library.books (Library.self st) !! b = Some bk →
  (∃ bk', Library.books (Library.self (run st cs')) !! b = Some bk'
          ∧ Book.book_id bk' = Book.book_id bk
          ∧ Book.title bk' = Book.title bk
          ∧ Book.author bk' = Book.author bk
          ∧ Book.isbn bk' = Book.isbn bk
          ∧ Book.total_copies bk ≤ Book.total_copies bk')
  ∧ (∀ (t a i : string) (copies id : Z) (st2 : Library.state),
       Library.isbn_index (Library.self (run st cs')) !! Str.strip i = None →
       Library.add_book (run st cs') t a i copies = (st2, inr (Some id)) →
       b < id).
Proof.
  intros st Hb.
  pose proof (ledger_inv_reachable bc mc nm cs) as Hinv. fold st in Hinv.
  destruct (run_keeps cs' st Hinv) as (Hc & Hbooks & _).
  split.
  - destruct (Hbooks _ _ Hb) as (bk' & Hb' & Hsame). exists bk'.
    split; [done|]. exact Hsame.
  - intros t a i copies id st2 Hidx. unfold Library.add_book.
    destruct (copies <=? 0); [discriminate|]. rewrite Hidx. simpl.
    intros [= _ <-]. apply (inv_book_ids _ Hinv) in Hb. lia.
Qed.

Lemma books_persist_witness :
  let st := run (Library.init 1 100 "Central City Library")
                [AddBook "dune" "frank herbert" "9780441013593" 2;
                 RegisterMember "ann lee" "ann@example.org"] in
  let cs' := [IssueBook 1 100 0; AddBook "dune" "f. herbert" "9780441013593" 3;
              ReturnBook 1 100 5] in
  (∃ bk', Library.books (Library.self (run st cs')) !! 1 = Some bk'
          ∧ Book.book_id bk' = 1
          ∧ Book.title bk' = "Dune"
          ∧ Book.author bk' = "Frank Herbert"
          ∧ Book.isbn bk' = "9780441013593"
          ∧ 2 ≤ Book.total_copies bk')
  ∧ (∀ (t a i : string) (copies id : Z) (st2 : Library.state),
       Library.isbn_index (Library.self (run st cs')) !! Str.strip i = None →
       Library.add_book (run st cs') t a i copies = (st2, inr (Some id)) →
       1 < id).
Proof.
  intros st cs'.
  apply (books_persist 1 100 "Central City Library"
           [AddBook "dune" "frank herbert" "9780441013593" 2;
            RegisterMember "ann lee" "ann@example.org"] cs' 1
           (snd (Book.init 1 "Dune" "Frank Herbert" "9780441013593" 2))).
  reflexivity.
Defined.

(** X4. Members are never deleted and their fines never go down. A Member
    of a reachable state is still registered under the same identifier
    after any further calls, with the same [member_id], name and email,
    and with [total_fines] at least what it was. *)
Theorem members_persist (bc mc : Z) (nm : string) (cs cs' : list call)
    (m : Z) (mem : Member.t) :
  let st := run (Library.init bc mc nm) cs in
  Library.members (Library.self st) !! m = Some mem →
  ∃ mem', Library.members (Library.self (run st cs')) !! m = Some mem'
          ∧ Member.member_id mem' = Member.member_id mem
          ∧ Member.name mem' = Member.name mem
          ∧ Member.email mem' = Member.email mem
          ∧ Member.total_fines mem ≤ Member.total_fines mem'.
Proof.
  intros st Hm.
  pose proof (ledger_inv_reachable bc mc nm cs) as Hinv. fold st in Hinv.
  destruct (run_keeps cs' st Hinv) as (_ & _ & Hmembers).
  destruct (Hmembers _ _ Hm) as (mem' & Hm' & Hsame). exists mem'.
  split; [done|]. exact Hsame.
Qed.

Lemma members_persist_witness :
  let st := run (Library.init 1 100 "Central City Library")
                [AddBook "dune" "frank herbert" "9780441013593" 2;
                 RegisterMember "ann lee" "Ann@Example.org";
                 IssueBook 1 100 0] in
  let cs' := [ReturnBook 1 100 (timedelta_of_days 17);
              RegisterMember "bob ray" "bob@example.org"] in
  ∃ mem', Library.members (Library.self (run st cs')) !! 100 = Some mem'
          ∧ Member.member_id mem' = 100
          ∧ Member.name mem' = "Ann Lee"
          ∧ Member.email mem' = "ann@example.org"
          ∧ 0 ≤ Member.total_fines mem'.
Proof.
  intros st cs'.
  apply (members_persist 1 100 "Central City Library"
           [AddBook "dune" "frank herbert" "9780441013593" 2;
            RegisterMember "ann lee" "Ann@Example.org";
            IssueBook 1 100 0] cs' 100
           {| Member.member_id := 100; Member.name := "Ann Lee";
              Member.email := "ann@example.org";
              Member.borrowed_books := [1]; Member.total_fines := 0 |}).
  reflexivity.
Defined.

(** X5. In every state the Library reaches, [register_member] returns
    [None] and changes nothing when the name or the email is empty once
    stripped of white space; otherwise it returns the current value of
    [Member.member_id_counter], which is not yet a member identifier, and
    adds under it a Member with the title-cased name, the lower-cased
    email, no borrowed book and no fine, leaving the books as they are. *)
Theorem register_member_outcome (bc mc : Z) (nm : string) (cs : list call)
    (name email : string) :
  let st := run (Library.init bc mc nm) cs in
  ((Str.strip name = EmptyString ∨ Str.strip email = EmptyString)
   ∧ Library.register_member st name email = (st, None))
  ∨ (Str.strip name ≠ EmptyString ∧ Str.strip email ≠ EmptyString
     ∧ ∃ st',
         Library.register_member st name email
           = (st', Some (Library.member_id_counter st))
         ∧ Library.members (Library.self st) !! Library.member_id_counter st = None
         ∧ Library.members (Library.self st')
           = <[Library.member_id_counter st :=
                 {| Member.member_id := Library.member_id_counter st;
                    Member.name := Str.title (Str.strip name);
                    Member.email := Str.lower (Str.strip email);
                    Member.borrowed_books := [];
                    Member.total_fines := 0 |}]>
               (Library.members (Library.self st))
         ∧ Library.books (Library.self st') = Library.books (Library.self st)
         ∧ Library.member_id_counter st' = Library.member_id_counter st + 1).
Proof.
  intros st.
  pose proof (ledger_inv_reachable bc mc nm cs) as [_ I2 _ _ _]. fold st in I2.
  unfold Library.register_member.
  rewrite is_empty_title, is_empty_lower.
  destruct (Str.strip name) as [|c1 s1] eqn:Hn; simpl; [left; auto|].
  destruct (Str.strip email) as [|c2 s2] eqn:He; simpl; [left; auto|].
  right. split_and!; [done..|]. eexists. split_and!; try reflexivity.
  destruct (Library.members (Library.self st) !! Library.member_id_counter st)
    as [mem|] eqn:Hm; [|done].
  apply I2 in Hm. lia.
Qed.

(** * Issue and return through the Library *)

Section IssueReturnFacts.

Implicit Types (st : Library.state) (b m now : Z).

Lemma list_remove_app_new (x : Z) (l : list Z) :
  x ∉ l → list_remove x (l ++ [x]) = l.
Proof.
  induction l as [|y l IH]; simpl.
  - intros _. by rewrite decide_True.
  - intros [Hne Hl]%not_elem_of_cons.
    rewrite decide_False by done. by rewrite IH.
Qed.

(** Returning what was just issued gives the Book back as it was. *)
Lemma Book_issue_return (bk bk' : Book.t) m n t0 r t1 :
  Book.issue_book bk m n t0 = (bk', inr r) →
  fst (Book.return_book bk' m t1) = bk.
Proof.
  unfold Book.issue_book.
  destruct (negb (Book.is_available bk)); [discriminate|].
  destruct (Book.issued_to bk !! m) eqn:Hm; [discriminate|].
  intros [= <- _]. unfold Book.return_book. simpl.
  rewrite lookup_insert_eq. simpl. destruct bk as [id ti au isbn tot av to].
  simpl in *. f_equal; [lia|]. by apply delete_insert_id.
Qed.

Lemma list_count_le_1_NoDup (l : list Z) :
  (∀ x, (list_count x l ≤ 1)%nat) → NoDup l.
Proof.
  induction l as [|y l IH]; intros Hc; [constructor|].
  constructor.
  - intros Hy%list_count_elem_of. specialize (Hc y). simpl in Hc.
    rewrite decide_True in Hc by done. lia.
  - apply IH. intros x. specialize (Hc x). simpl in Hc.
    destruct (decide (y = x)); lia.
Qed.

End IssueReturnFacts.

(** X6. [Library.issue_book] returns [True] exactly when the book and the
    member exist, a copy is available and the member holds no record on
    that Book. When it returns [False] the state is unchanged; an unknown
    book is reported before an unknown member. *)
Theorem issue_book_succeeds_iff (st : Library.state) (b m now : Z) :
  (Library.issue_returns (snd (Library.issue_book st b m now)) = true
   ↔ ∃ bk mem,
       Library.books (Library.self st) !! b = Some bk
       ∧ Library.members (Library.self st) !! m = Some mem
       ∧ 0 < Book.available_copies bk
       ∧ Book.issued_to bk !! m = None)
  ∧ (Library.issue_returns (snd (Library.issue_book st b m now)) = false →
     fst (Library.issue_book st b m now) = st)
  ∧ (Library.books (Library.self st) !! b = None →
     snd (Library.issue_book st b m now) = Library.IssueBookNotFound)
  ∧ (is_Some (Library.books (Library.self st) !! b) →
     Library.members (Library.self st) !! m = None →
     snd (Library.issue_book st b m now) = Library.IssueMemberNotFound).
Proof.
  split_and!.
  - destruct (Library.issue_book st b m now) as [st' o] eqn:Hi. simpl. split.
    + destruct o; try discriminate. intros _.
      apply Library_issue_book_success in Hi
        as (bk & mem & bk' & Hb & Hm & Hbi & _).
      apply issue_book_success in Hbi as (Hav & Hnone & _).
      by exists bk, mem.
    + intros (bk & mem & Hb & Hm & Hav & Hnone).
      revert Hi. unfold Library.issue_book, Book.issue_book.
      rewrite Hb, Hm, (proj2 (is_available_true bk) Hav), Hnone. simpl.
      by intros [= _ <-].
  - intros Hf. destruct (Library.issue_book st b m now) as [st' o] eqn:Hi.
    simpl in *. by eapply Library_issue_book_failure.
  - intros Hb. unfold Library.issue_book. by rewrite Hb.
  - intros [bk Hb] Hm. unfold Library.issue_book. by rewrite Hb, Hm.
Qed.

(** X7. In every state the Library reaches, [Library.return_book] returns
    [True] exactly when the book identifier is in the member's borrowed
    list; when it returns [False] the state is unchanged. *)
Theorem return_book_succeeds_iff (bc mc : Z) (nm : string) (cs : list call)
    (b m now : Z) :
  let st := run (Library.init bc mc nm) cs in
  (Library.return_returns (snd (Library.return_book st b m now)) = true
   ↔ b ∈ borrowed st m)
  ∧ (Library.return_returns (snd (Library.return_book st b m now)) = false →
     fst (Library.return_book st b m now) = st).
Proof.
  intros st.
  pose proof (ledger_inv_reachable bc mc nm cs) as Hinv. fold st in Hinv.
  pose proof (inv_borrowed _ Hinv b m) as Hcount.
  split.
  - rewrite list_count_elem_of, Hcount.
    destruct (Library.return_book st b m now) as [st' o] eqn:Hr. simpl. split.
    + destruct o; try discriminate. intros _.
      apply Library_return_book_success in Hr
        as (bk & mem & bk' & mem' & Hb & Hm & Hbr & _).
      apply return_book_inv_success in Hbr as ([r Hl] & _).
      unfold has_loan. by rewrite Hb, Hl.
    + intros Hloan. revert Hcount Hloan Hr.
      unfold has_loan, borrowed, Library.return_book, Book.return_book.
      destruct (Library.books (Library.self st) !! b) as [bk|]; [|done].
      destruct (Book.issued_to bk !! m) as [r|]; [|done].
      destruct (Library.members (Library.self st) !! m) as [mem|]; [|done].
      by intros _ _ [= _ <-].
  - intros Hf. destruct (Library.return_book st b m now) as [st' o] eqn:Hr.
    simpl in *. by eapply Library_return_book_failure.
Qed.

(** X8. A successful [Library.return_book] adds to the member's
    [total_fines] exactly [overdue_days] times the daily rate, which is
    never negative and is nothing for a return that is not overdue; the
    member's borrowed list loses the first occurrence of the book and the
    other members are untouched. *)
Theorem return_book_fines (st st' : Library.state) (b m now : Z)
    (info : ReturnInfo) (mem : Member.t) :
  Library.return_book st b m now = (st', Library.Returned info) →
  Library.members (Library.self st) !! m = Some mem →
  ∃ mem',
    Library.members (Library.self st') !! m = Some mem'
    ∧ Member.total_fines mem'
      = Member.total_fines mem + overdue_days info * daily_fine_rate
    ∧ 0 ≤ overdue_days info
    ∧ (is_overdue info = false → Member.total_fines mem' = Member.total_fines mem)
    ∧ Member.borrowed_books mem' = list_remove b (Member.borrowed_books mem)
    ∧ (∀ m0, m0 ≠ m →
         Library.members (Library.self st') !! m0
         = Library.members (Library.self st) !! m0).
Proof.
  intros Hr Hm.
  destruct (Library_return_book_member _ _ _ _ _ _ _ Hr Hm)
    as (mem' & Hms & _ & _ & _ & Hbor & Hf).
  apply Library_return_book_success in Hr as (bk & ? & bk' & ? & _ & _ & Hbr & _).
  destruct (return_book_fine_nonneg _ _ _ _ _ Hbr) as (Hod & Hfine & Hzero).
  exists mem'. rewrite Hms, lookup_insert_eq. split_and!; try done.
  - rewrite Hf, Hfine. destruct (is_overdue info); [done|]. rewrite Hzero; lia.
  - intros Hno. rewrite Hf, Hno. lia.
  - intros m0 Hne. by rewrite lookup_insert_ne.
Qed.

Lemma return_book_fines_witness :
  let st := run (Library.init 1 100 "Central City Library")
                [AddBook "dune" "frank herbert" "9780441013593" 2;
                 RegisterMember "ann lee" "Ann@Example.org";
                 IssueBook 1 100 0] in
  let now := timedelta_of_days 17 + 5 in
  ∃ mem',
    Library.members (Library.self (fst (Library.return_book st 1 100 now))) !! 100
      = Some mem'
    ∧ Member.total_fines mem' = 0 + 3 * daily_fine_rate.
Proof.
  intros st now.
  destruct (return_book_fines st (fst (Library.return_book st 1 100 now)) 1 100 now
              {| days_borrowed := 17; is_overdue := true;
                 overdue_days := 3; fine := 3 |}
              {| Member.member_id := 100; Member.name := "Ann Lee";
                 Member.email := "ann@example.org";
                 Member.borrowed_books := [1]; Member.total_fines := 0 |}
              eq_refl eq_refl) as (mem' & Hm & Hf & _).
  exists mem'. split; [exact Hm | exact Hf].
Defined.

(** X9. Round trip on the state. In every state the Library reaches, a
    successful [issue_book] followed by the [return_book] of the same
    book by the same member, no later than the due date, gives back the
    state as it was before the issue. *)
Theorem issue_return_restores (bc mc : Z) (nm : string) (cs : list call)
    (b m t0 t1 : Z) (st1 : Library.state) (r : IssueRecord) :
  let st := run (Library.init bc mc nm) cs in
  Library.issue_book st b m t0 = (st1, Library.Issued r) →
  t1 ≤ t0 + timedelta_of_days loan_period_days →
  Library.return_book st1 b m t1
  = (st, Library.Returned
           {| days_borrowed := timedelta_days (t1 - t0); is_overdue := false;
              overdue_days := 0; fine := 0 |}).
Proof.
  intros st Hi Ht.
  pose proof (ledger_inv_reachable bc mc nm cs) as Hinv. fold st in Hinv.
  pose proof (inv_borrowed _ Hinv b m) as Hcount.
  revert Hi. unfold Library.issue_book.
  destruct (Library.books (Library.self st) !! b) as [bk|] eqn:Hb; [|discriminate].
  destruct (Library.members (Library.self st) !! m) as [mem|] eqn:Hm; [|discriminate].
  destruct (Book.issue_book bk m (Member.name mem) t0) as [bk' [msg|r']] eqn:Hbi;
    [discriminate|].
  intros [= <- <-].
  pose proof (Book_issue_return _ _ _ _ _ _ t1 Hbi) as Hback.
  pose proof (issue_book_success _ _ _ _ _ _ Hbi) as (_ & Hnone & Hr & Hto & _).
  assert (b ∉ Member.borrowed_books mem) as Hnotin.
  { rewrite list_count_elem_of. revert Hcount. unfold borrowed, has_loan.
    rewrite Hb, Hm, Hnone. intros ->. auto. }
  unfold Library.return_book. simpl. rewrite !lookup_insert_eq.
  destruct (Book.return_book bk' m t1) as [bk'' [msg|info]] eqn:Hbr.
  { revert Hbr. unfold Book.return_book. rewrite Hto, lookup_insert_eq.
    discriminate. }
  simpl in Hback. subst bk''.
  assert (info = {| days_borrowed := timedelta_days (t1 - t0); is_overdue := false;
                    overdue_days := 0; fine := 0 |}) as ->.
  { revert Hbr. unfold Book.return_book. rewrite Hto, lookup_insert_eq, Hr.
    simpl. rewrite (proj2 (Z.ltb_ge _ _) Ht). by intros [= _ <-]. }
  simpl. f_equal.
  unfold Library.set_members, Library.set_books. simpl.
  rewrite !insert_insert_eq, (insert_id _ _ _ Hb).
  replace (fst (Member.return_book (Member.borrow_book mem b) b)) with mem.
  { rewrite (insert_id _ _ _ Hm). by destruct st as [? ? []]. }
  unfold Member.return_book, Member.borrow_book. simpl.
  rewrite decide_True by (apply elem_of_app; right; by apply list_elem_of_singleton).
  simpl. rewrite list_remove_app_new by done. by destruct mem.
Qed.

Lemma issue_return_restores_witness :
  let st := run (Library.init 1 100 "Central City Library")
                [AddBook "dune" "frank herbert" "9780441013593" 2;
                 RegisterMember "ann lee" "Ann@Example.org"] in
  Library.return_book (fst (Library.issue_book st 1 100 1000)) 1 100
                      (1000 + timedelta_of_days 3)
  = (st, Library.Returned
           {| days_borrowed := timedelta_days (1000 + timedelta_of_days 3 - 1000);
              is_overdue := false; overdue_days := 0; fine := 0 |}).
Proof.
  intros st.
  apply (issue_return_restores 1 100 "Central City Library"
           [AddBook "dune" "frank herbert" "9780441013593" 2;
            RegisterMember "ann lee" "Ann@Example.org"]
           1 100 1000 (1000 + timedelta_of_days 3) _
           (mkIssueRecord 100 "Ann Lee" 1000 (1000 + timedelta_of_days 14)));
    [reflexivity | vm_compute; discriminate].
Defined.

(** X10. In every state the Library reaches, no member's borrowed list
    holds a book identifier twice. *)
Theorem borrowed_no_duplicates (bc mc : Z) (nm : string) (cs : list call) (m : Z) :
  NoDup (borrowed (run (Library.init bc mc nm) cs) m).
Proof.
  pose proof (ledger_inv_reachable bc mc nm cs) as Hinv.
  apply list_count_le_1_NoDup. intros x.
  rewrite (inv_borrowed _ Hinv).
  destruct (has_loan _ x m); lia.
Qed.

(** X11. In every state the Library reaches, each record in a Book's
    [issued_to] is stored under its own [member_id], is due 14 days after
    its issue date, and names a registered member whose name is the
    record's [member_name] and whose borrowed list holds the book. *)
Theorem issue_records_well_formed (bc mc : Z) (nm : string) (cs : list call)
    (b m : Z) (bk : Book.t) (r : IssueRecord) :
  let st := run (Library.init bc mc nm) cs in
  Library.books (Library.self st) !! b = Some bk →
  Book.issued_to bk !! m = Some r →
  member_id r = m
  ∧ due_date r = issue_date r + timedelta_of_days 14
  ∧ ∃ mem, Library.members (Library.self st) !! m = Some mem
           ∧ Member.name mem = member_name r
           ∧ b ∈ Member.borrowed_books mem.
Proof.
  intros st Hb Hr.
  pose proof (ledger_inv_reachable bc mc nm cs) as Hinv. fold st in Hinv.
  pose proof (catalog_wf_reachable bc mc nm cs) as Hwf. fold st in Hwf.
  destruct (wf_record _ Hwf _ _ _ _ Hb Hr) as (Hid & Hdue & mem & Hm & Hn).
  split_and!; [done..|]. exists mem. split_and!; [done..|].
  pose proof (inv_borrowed _ Hinv b m) as Hcount. revert Hcount.
  unfold borrowed, has_loan. rewrite Hb, Hr, Hm. intros Hcount.
  apply list_count_elem_of. lia.
Qed.

Lemma issue_records_well_formed_witness :
  let st := run (Library.init 1 100 "Central City Library")
                [AddBook "dune" "frank herbert" "9780441013593" 1;
                 RegisterMember "ann lee" "Ann@Example.org";
                 IssueBook 1 100 7] in
  let r := mkIssueRecord 100 "Ann Lee" 7 (7 + timedelta_of_days 14) in
  member_id r = 100
  ∧ due_date r = issue_date r + timedelta_of_days 14
  ∧ ∃ mem, Library.members (Library.self st) !! 100 = Some mem
           ∧ Member.name mem = member_name r
           ∧ 1 ∈ Member.borrowed_books mem.
Proof.
  intros st r.
  apply (issue_records_well_formed 1 100 "Central City Library"
           [AddBook "dune" "frank herbert" "9780441013593" 1;
            RegisterMember "ann lee" "Ann@Example.org";
            IssueBook 1 100 7] 1 100
           (fst (Book.issue_book
                   (snd (Book.init 1 "Dune" "Frank Herbert" "9780441013593" 1))
                   100 "Ann Lee" 7)) r);
    reflexivity.
Defined.

(** * The views *)

Section ViewFacts.

Implicit Types (st : Library.state) (b m now : Z).

Lemma borrowed_lines_defined (books : gmap Z Book.t) m clock (l : list Z) :
  ∀ i,
  (∀ b, b ∈ l → ∃ bk r, books !! b = Some bk ∧ Book.issued_to bk !! m = Some r) →
  ∃ lines,
    LibraryViews.borrowed_lines books m clock i l = inr lines
    ∧ Forall2 (λ b line, ∃ bk r,
                 books !! b = Some bk ∧ Book.issued_to bk !! m = Some r
                 ∧ LibraryViews.line_title line = Book.title bk
                 ∧ LibraryViews.line_due_date line = due_date r) l lines.
Proof.
  induction l as [|b l IH]; intros i Hl; simpl.
  - exists []. split; [done|constructor].
  - destruct (Hl b) as (bk & r & Hb & Hr); [by left|].
    rewrite Hb, Hr.
    destruct (IH (S i)) as (lines & -> & Hall).
    { intros b' Hb'. apply Hl. by right. }
    eexists. split; [reflexivity|]. constructor; [|done].
    exists bk, r. by simpl.
Qed.

(** The sign of [delta.days] is the sign of [delta]. *)
Lemma timedelta_days_neg (delta : Z) : timedelta_days delta < 0 ↔ delta < 0.
Proof.
  pose proof (timedelta_days_floor delta) as H.
  unfold microseconds_per_day in H. lia.
Qed.

End ViewFacts.

(** X12. In every state the Library reaches, [view_member_info] raises
    nothing: for an unknown member it prints no report, and for a member
    it prints the member's fields and one line for each borrowed book,
    in the order of the borrowed list, with the title of the stored Book
    and the due date of the record that Book holds for the member. *)
Theorem view_member_info_defined (bc mc : Z) (nm : string) (cs : list call)
    (m : Z) (clock : nat → Z) :
  let st := run (Library.init bc mc nm) cs in
  match Library.members (Library.self st) !! m with
  | None => LibraryViews.view_member_info st m clock = inr None
  | Some mem =>
      ∃ lines,
        LibraryViews.view_member_info st m clock
        = inr (Some {| LibraryViews.view_member_id := m;
                       LibraryViews.view_name := Member.name mem;
                       LibraryViews.view_email := Member.email mem;
                       LibraryViews.view_books_issued :=
                         length (Member.borrowed_books mem);
                       LibraryViews.view_total_fines := Member.total_fines mem;
                       LibraryViews.view_lines := lines |})
        ∧ Forall2 (λ b line, ∃ bk r,
                     Library.books (Library.self st) !! b = Some bk
                     ∧ Book.issued_to bk !! m = Some r
                     ∧ LibraryViews.line_title line = Book.title bk
                     ∧ LibraryViews.line_due_date line = due_date r)
                  (Member.borrowed_books mem) lines
  end.
Proof.
  intros st.
  pose proof (ledger_inv_reachable bc mc nm cs) as Hinv. fold st in Hinv.
  pose proof (catalog_wf_reachable bc mc nm cs) as Hwf. fold st in Hwf.
  unfold LibraryViews.view_member_info.
  destruct (Library.members (Library.self st) !! m) as [mem|] eqn:Hm; [|done].
  destruct (borrowed_lines_defined (Library.books (Library.self st)) m clock
              (Member.borrowed_books mem) 0) as (lines & -> & Hall).
  { intros b Hb. apply list_count_elem_of in Hb.
    pose proof (inv_borrowed _ Hinv b m) as Hcount. revert Hcount.
    unfold borrowed, has_loan. rewrite Hm.
    destruct (Library.books (Library.self st) !! b) as [bk|]; [|lia].
    destruct (Book.issued_to bk !! m) as [r|] eqn:Hr; [eauto|lia]. }
  exists lines. split; [|done].
  destruct (wf_member _ Hwf _ _ Hm) as (-> & _). done.
Qed.

(** X13. The issued-books view and the return agree on when a loan is
    overdue, and differ by at most a day on how long. For a record a Book
    holds, [view_issued_books] marks it overdue exactly when a return at
    the same moment would be overdue. When it is, the view prints the
    number of days started since the due date, [return_book] charges the
    number of whole days elapsed: the view's number is at least 1, and is
    one more than [overdue_days] unless the delay is a whole number of
    days. When it is not, the view prints the whole days remaining. *)
Theorem issued_view_and_return (bk : Book.t) (m now : Z) (r : IssueRecord) :
  Book.issued_to bk !! m = Some r →
  ∃ bk' info,
    Book.return_book bk m now = (bk', inr info)
    ∧ LibraryViews.issued_is_overdue r now = is_overdue info
    ∧ (is_overdue info = true →
       ∃ k, LibraryViews.issued_entry_status r now = LibraryViews.IssuedOverdue k
            ∧ 1 ≤ k
            ∧ (k - 1) * microseconds_per_day < now - due_date r
                ≤ k * microseconds_per_day
            ∧ overdue_days info ≤ k ≤ overdue_days info + 1
            ∧ (k = overdue_days info
               ↔ (now - due_date r) `mod` microseconds_per_day = 0))
    ∧ (is_overdue info = false →
       ∃ d, LibraryViews.issued_entry_status r now = LibraryViews.IssuedDueIn d
            ∧ 0 ≤ d
            ∧ d * microseconds_per_day ≤ due_date r - now
                < (d + 1) * microseconds_per_day).
Proof.
  intros Hr.
  destruct (return_book_success bk m now r Hr)
    as (bk' & info & Hret & _ & _ & _ & Hov & _ & Hdays & _).
  exists bk', info. split; [done|].
  assert (LibraryViews.issued_is_overdue r now = (due_date r <? now)) as Hview.
  { unfold LibraryViews.issued_is_overdue, LibraryViews.issued_days_remaining.
    destruct (Z.ltb_spec (due_date r) now) as [Hlt|Hge].
    - apply Z.ltb_lt, timedelta_days_neg. lia.
    - apply Z.ltb_ge. apply timedelta_days_nonneg. lia. }
  unfold LibraryViews.issued_entry_status. rewrite Hview, Hov, Hdays.
  split; [done|].
  pose proof (timedelta_days_floor (due_date r - now)) as Hrem.
  pose proof (timedelta_days_floor (now - due_date r)) as Hlate.
  unfold LibraryViews.issued_days_remaining.
  destruct (Z.ltb_spec (due_date r) now) as [Hlt|Hge]; split; try discriminate.
  - intros _. eexists. split; [reflexivity|].
    assert (timedelta_days (due_date r - now) < 0) as Hneg
      by (apply timedelta_days_neg; lia).
    pose proof (Z.div_mod (now - due_date r) microseconds_per_day) as Hdm.
    pose proof (Z.mod_pos_bound (now - due_date r) microseconds_per_day) as Hmb.
    fold (timedelta_days (now - due_date r)) in Hdm.
    unfold microseconds_per_day in *.
    rewrite Z.abs_neq by lia. lia.
  - intros _. eexists. split; [reflexivity|].
    split; [apply timedelta_days_nonneg; lia|done].
Qed.

Lemma issued_view_and_return_witness :
  let bk := fst (Book.issue_book
                   (snd (Book.init 1 "Dune" "Frank Herbert" "9780441013593" 1))
                   100 "Ann Lee" 0) in
  let r := mkIssueRecord 100 "Ann Lee" 0 (timedelta_of_days 14) in
  let now := timedelta_of_days 14 + 1 in
  ∃ bk' info,
    Book.return_book bk 100 now = (bk', inr info)
    ∧ LibraryViews.issued_is_overdue r now = is_overdue info
    ∧ (is_overdue info = true →
       ∃ k, LibraryViews.issued_entry_status r now = LibraryViews.IssuedOverdue k
            ∧ 1 ≤ k
            ∧ (k - 1) * microseconds_per_day < now - due_date r
                ≤ k * microseconds_per_day
            ∧ overdue_days info ≤ k ≤ overdue_days info + 1
            ∧ (k = overdue_days info
               ↔ (now - due_date r) `mod` microseconds_per_day = 0))
    ∧ (is_overdue info = false →
       ∃ d, LibraryViews.issued_entry_status r now = LibraryViews.IssuedDueIn d
            ∧ 0 ≤ d
            ∧ d * microseconds_per_day ≤ due_date r - now
                < (d + 1) * microseconds_per_day).
Proof.
  intros bk r now.
  apply (issued_view_and_return bk 100 now r). reflexivity.
Defined.

(** One second late: the view says overdue by 1 day, the return charges
    0 days. *)
Example issued_view_one_second_late :
  let r := mkIssueRecord 100 "Ann Lee" 0 (timedelta_of_days 14) in
  let bk := fst (Book.issue_book
                   (snd (Book.init 1 "Dune" "Frank Herbert" "9780441013593" 1))
                   100 "Ann Lee" 0) in
  LibraryViews.issued_entry_status r (timedelta_of_days 14 + 1000000)
    = LibraryViews.IssuedOverdue 1
  ∧ snd (Book.return_book bk 100 (timedelta_of_days 14 + 1000000))
    = inr {| days_borrowed := 14; is_overdue := true;
             overdue_days := 0; fine := 0 |}.
Proof. split; reflexivity. Qed.

(** X14. [Member.return_book] answers [True] exactly when the book is in
    the borrowed list. It then removes one occurrence, the first: the
    list is one shorter, the book is counted once less and every other
    book as often as before. It answers [False] without changing the
    member. After [borrow_book] of a book that was not in the list, it
    gives the member back as it was. *)
Theorem Member_return_book_removes_one (mem : Member.t) (b : Z) :
  (snd (Member.return_book mem b) = true ↔ b ∈ Member.borrowed_books mem)
  ∧ (snd (Member.return_book mem b) = false → fst (Member.return_book mem b) = mem)
  ∧ (snd (Member.return_book mem b) = true →
     S (length (Member.borrowed_books (fst (Member.return_book mem b))))
     = length (Member.borrowed_books mem))
  ∧ list_count b (Member.borrowed_books (fst (Member.return_book mem b)))
    = pred (list_count b (Member.borrowed_books mem))
  ∧ (∀ x, x ≠ b →
       list_count x (Member.borrowed_books (fst (Member.return_book mem b)))
       = list_count x (Member.borrowed_books mem))
  ∧ (b ∉ Member.borrowed_books mem →
     Member.return_book (Member.borrow_book mem b) b = (mem, true)).
Proof.
  assert (∀ l : list Z, b ∈ l → S (length (list_remove b l)) = length l) as Hlen.
  { induction l as [|y l IH]; simpl; [by intros ?%elem_of_nil|].
    intros [->|Hin]%elem_of_cons.
    - by rewrite decide_True.
    - destruct (decide (y = b)); [done|]. simpl. by rewrite IH. }
  split_and!.
  - unfold Member.return_book.
    by destruct (decide (b ∈ Member.borrowed_books mem)).
  - unfold Member.return_book.
    by destruct (decide (b ∈ Member.borrowed_books mem)).
  - unfold Member.return_book.
    destruct (decide (b ∈ Member.borrowed_books mem)); simpl; [auto|discriminate].
  - rewrite Member_return_book_borrowed. apply list_count_remove_same.
  - intros x Hx. rewrite Member_return_book_borrowed.
    by apply list_count_remove_other.
  - intros Hnotin. unfold Member.return_book, Member.borrow_book. simpl.
    rewrite decide_True
      by (apply elem_of_app; right; by apply list_elem_of_singleton).
    rewrite list_remove_app_new by done. by destruct mem.
Qed.

(** * Properties of the To Do App *)

Section TaskFacts.

Implicit Types (st : TaskManager.state) (ts : list Task.t) (task : Task.t).

Lemma find_in_Some ts i task :
  TaskManager.find_in ts i = Some task → task ∈ ts ∧ Task.task_id task = i.
Proof.
  induction ts as [|t ts IH]; simpl; [discriminate|].
  destruct (Z.eqb_spec (Task.task_id t) i) as [Heq|Hne].
  - intros [= <-]. split; [by left|done].
  - intros H. destruct (IH H). split; [by right|done].
Qed.

Lemma find_in_None ts i :
  TaskManager.find_in ts i = None ↔ i ∉ map Task.task_id ts.
Proof.
  induction ts as [|t ts IH]; simpl.
  - split; [intros _ ?%elem_of_nil; done|done].
  - rewrite not_elem_of_cons, <- IH.
    destruct (Z.eqb_spec (Task.task_id t) i) as [Heq|Hne].
    + split; [discriminate|]. intros [? _]. congruence.
    + split; [by split; [congruence|]|by intros [_ ?]].
Qed.

Lemma find_in_app ts i task :
  TaskManager.find_in (ts ++ [task]) i
  = match TaskManager.find_in ts i with
    | Some found => Some found
    | None => if Task.task_id task =? i then Some task else None
    end.
Proof.
  induction ts as [|t ts IH]; simpl; [done|].
  by destruct (Task.task_id t =? i).
Qed.

Lemma update_found_ids f i ts :
  (∀ task, Task.task_id (f task) = Task.task_id task) →
  map Task.task_id (TaskManager.update_found f i ts) = map Task.task_id ts.
Proof.
  intros Hf. induction ts as [|t ts IH]; simpl; [done|].
  destruct (Task.task_id t =? i); simpl; [by rewrite Hf|by rewrite IH].
Qed.



Lemma remove_found_spec ts i task :
  TaskManager.find_in ts i = Some task →
  S (length (TaskManager.remove_found i ts)) = length ts
  ∧ (∀ j, j ≠ i →
       TaskManager.find_in (TaskManager.remove_found i ts) j
       = TaskManager.find_in ts j)
  ∧ (NoDup (map Task.task_id ts) →
     TaskManager.find_in (TaskManager.remove_found i ts) i = None)
  ∧ (∀ t, t ∈ TaskManager.remove_found i ts → t ∈ ts).
Proof.
  induction ts as [|t ts IH]; simpl; [discriminate|].
  destruct (Z.eqb_spec (Task.task_id t) i) as [Heq|Hne].
  - intros _. split_and!; [done| | |].
    + intros j Hj. by rewrite (proj2 (Z.eqb_neq (Task.task_id t) j)) by congruence.
    + intros [Hnotin _]%NoDup_cons. apply find_in_None. congruence.
    + intros t' Ht'. by right.
  - intros H. destruct (IH H) as (IH1 & IH2 & IH3 & IH4). simpl.
    rewrite (proj2 (Z.eqb_neq _ _) Hne). split_and!.
    + by rewrite IH1.
    + intros j Hj. destruct (Task.task_id t =? j); [done|by apply IH2].
    + intros [_ Hnd]%NoDup_cons. by apply IH3.
    + intros t' [->|Ht']%elem_of_cons; [by left|right; by apply IH4].
Qed.

Lemma valid_priority_cases (p : string) :
  TaskManager.valid_priority p = true →
  p = "High"%string ∨ p = "Medium"%string ∨ p = "Low"%string.
Proof.
  unfold TaskManager.valid_priority.
  intros [[H|H]%orb_true_iff|H]%orb_true_iff; apply String.eqb_eq in H; auto.
Qed.

(** Each call keeps the identifiers below the counter. *)
Lemma ids_below_counter_step st c :
  ids_below_counter st → ids_below_counter (task_step st c).
Proof.
  unfold ids_below_counter. intros Hst.
  destruct c as [t d p now|i now|i|i answer]; simpl.
  - unfold TaskManager.add_task.
    destruct (Str.is_empty (Str.strip t)); simpl; [done|].
    apply Forall_app. split.
    + eapply Forall_impl; [exact Hst|]. simpl. intros; lia.
    + constructor; [simpl; lia|constructor].
  - unfold TaskManager.mark_completed.
    destruct (TaskManager._find_task st i) as [task|]; [|done].
    destruct (Task.completed task); simpl; [done|].
    apply Forall_forall. intros t Ht.
    assert (Task.task_id t ∈ map Task.task_id (TaskManager.tasks st)) as Hin.
    { rewrite <- (update_found_ids (λ t, Task.mark_completed t now) i) by done.
      by apply list_elem_of_fmap_2. }
    apply list_elem_of_fmap in Hin as (t0 & -> & Ht0).
    by apply (proj1 (Forall_forall _ _) Hst).
  - unfold TaskManager.mark_pending.
    destruct (TaskManager._find_task st i) as [task|]; [|done].
    destruct (negb (Task.completed task)); simpl; [done|].
    apply Forall_forall. intros t Ht.
    assert (Task.task_id t ∈ map Task.task_id (TaskManager.tasks st)) as Hin.
    { rewrite <- (update_found_ids Task.mark_pending i) by done.
      by apply list_elem_of_fmap_2. }
    apply list_elem_of_fmap in Hin as (t0 & -> & Ht0).
    by apply (proj1 (Forall_forall _ _) Hst).
  - unfold TaskManager.delete_task.
    destruct (TaskManager._find_task st i) as [task|] eqn:Hf; [|done].
    destruct (String.eqb _ _); simpl; [|done].
    apply Forall_forall. intros t Ht.
    apply (remove_found_spec _ _ _ Hf) in Ht.
    by apply (proj1 (Forall_forall _ _) Hst).
Qed.

Lemma from_dict_counter c d now :
  Task.task_id (snd (Task.from_dict c d now)) < fst (Task.from_dict c d now)
  ∧ c ≤ fst (Task.from_dict c d now).
Proof.
  unfold Task.from_dict, Task.init. simpl.
  destruct (Task.d_task_id d =? 0) eqn:H0; simpl.
  - destruct (c + 1 <=? c); lia.
  - destruct (Z.leb_spec c (Task.d_task_id d)); lia.
Qed.

Lemma from_dicts_below ds : ∀ c now,
  c ≤ fst (TaskManager.from_dicts c ds now)
  ∧ Forall (λ task, Task.task_id task < fst (TaskManager.from_dicts c ds now))
           (snd (TaskManager.from_dicts c ds now)).
Proof.
  induction ds as [|d ds IH]; intros c now; cbn [TaskManager.from_dicts].
  { split; [simpl; lia|constructor]. }
  pose proof (from_dict_counter c d now) as [Hlt Hle].
  destruct (Task.from_dict c d now) as [c1 task]. simpl in *.
  destruct (IH c1 now) as [Hle2 Hall].
  destruct (TaskManager.from_dicts c1 ds now) as [c2 rest]. simpl in *.
  split; [lia|]. constructor; [lia|done].
Qed.

Lemma ids_below_counter_init c file now :
  ids_below_counter (TaskManager.init c file now).
Proof.
  unfold ids_below_counter, TaskManager.init.
  destruct file as [data|]; [|constructor].
  pose proof (from_dicts_below data c now) as [_ H].
  by destruct (TaskManager.from_dicts c data now).
Qed.

Lemma ids_below_counter_run cs : ∀ st,
  ids_below_counter st → ids_below_counter (task_run st cs).
Proof.
  induction cs as [|c cs IH]; intros st Hst; simpl; [done|].
  by apply IH, ids_below_counter_step.
Qed.

End TaskFacts.

Section TaskInvariant.

Implicit Types (st : TaskManager.state) (ts : list Task.t) (task : Task.t).

Lemma update_found_Forall (P : Task.t → Prop) f i ts :
  (∀ task, P task → P (f task)) →
  Forall P ts → Forall P (TaskManager.update_found f i ts).
Proof.
  intros Hf. induction 1 as [|t ts Ht Hts IH]; simpl; [constructor|].
  destruct (Task.task_id t =? i); constructor; auto.
Qed.

Lemma remove_found_NoDup i ts :
  NoDup (map Task.task_id ts) →
  NoDup (map Task.task_id (TaskManager.remove_found i ts)).
Proof.
  induction ts as [|t ts IH]; simpl; [done|].
  intros [Hnotin Hnd]%NoDup_cons.
  destruct (Task.task_id t =? i); [done|]. simpl.
  apply NoDup_cons. split; [|by apply IH].
  intros (t' & Heq & Ht')%list_elem_of_fmap. apply Hnotin.
  apply list_elem_of_fmap. exists t'. split; [done|].
  clear -Ht'. induction ts as [|t0 ts IH]; simpl in *; [done|].
  destruct (Task.task_id t0 =? i); [by right|].
  apply elem_of_cons in Ht' as [->|Ht']; [by left|right; by apply IH].
Qed.

Lemma remove_found_Forall (P : Task.t → Prop) i ts :
  Forall P ts → Forall P (TaskManager.remove_found i ts).
Proof.
  induction 1 as [|t ts Ht Hts IH]; simpl; [constructor|].
  destruct (Task.task_id t =? i); [done|by constructor].
Qed.

Lemma tasks_ok_init c now : tasks_ok (TaskManager.init c None now).
Proof.
  unfold tasks_ok, ids_below_counter. simpl.
  split_and!; constructor.
Qed.

Lemma tasks_ok_step st c : tasks_ok st → tasks_ok (task_step st c).
Proof.
  intros (Hbelow & Hnd & Hok).
  split; [by apply ids_below_counter_step|].
  destruct c as [t d p now|i now|i|i answer]; simpl.
  - unfold TaskManager.add_task.
    destruct (Str.is_empty (Str.strip t)); simpl; [done|].
    rewrite map_app. simpl. split.
    + apply NoDup_app. split_and!; [done| |apply NoDup_singleton].
      intros x (t0 & -> & Ht0)%list_elem_of_fmap Hx%list_elem_of_singleton.
      apply (proj1 (Forall_forall _ _) Hbelow) in Ht0. lia.
    + apply Forall_app. split; [done|]. constructor; [|constructor].
      split; simpl; [|done].
      by destruct (TaskManager.valid_priority (Str.title (Str.strip p))) eqn:Hv.
  - unfold TaskManager.mark_completed.
    destruct (TaskManager._find_task st i) as [task|]; [|done].
    destruct (Task.completed task); simpl; [done|].
    rewrite update_found_ids by done. split; [done|].
    apply update_found_Forall; [|done].
    intros t0 [Hp _]. by split.
  - unfold TaskManager.mark_pending.
    destruct (TaskManager._find_task st i) as [task|]; [|done].
    destruct (negb (Task.completed task)); simpl; [done|].
    rewrite update_found_ids by done. split; [done|].
    apply update_found_Forall; [|done].
    intros t0 [Hp _]. by split.
  - unfold TaskManager.delete_task.
    destruct (TaskManager._find_task st i) as [task|]; [|done].
    destruct (String.eqb _ _); simpl; [|done].
    split; [by apply remove_found_NoDup | by apply remove_found_Forall].
Qed.

Lemma tasks_ok_run cs : ∀ st, tasks_ok st → tasks_ok (task_run st cs).
Proof.
  induction cs as [|c cs IH]; intros st Hst; simpl; [done|].
  by apply IH, tasks_ok_step.
Qed.

Lemma count_if_bounds (p : Task.t → bool) ts :
  0 ≤ TaskManager.count_if p ts ≤ Z.of_nat (length ts).
Proof.
  induction ts as [|t ts IH]; simpl; [lia|]. destruct (p t); lia.
Qed.

Lemma count_if_pending ts :
  Z.of_nat (length ts) - TaskManager.count_if Task.completed ts
  = Z.of_nat (length (filter (λ task, Task.completed task = false) ts)).
Proof.
  induction ts as [|t ts IH]; simpl; [done|].
  rewrite filter_cons. destruct (Task.completed t) eqn:Hc.
  - rewrite decide_False by done. lia.
  - rewrite decide_True by done. simpl. lia.
Qed.

Lemma count_if_by_priority ts :
  Forall task_ok ts →
  TaskManager.count_if (TaskManager.pending_with "High") ts
  + TaskManager.count_if (TaskManager.pending_with "Medium") ts
  + TaskManager.count_if (TaskManager.pending_with "Low") ts
  = Z.of_nat (length ts) - TaskManager.count_if Task.completed ts.
Proof.
  induction 1 as [|t ts [Hp _] Hts IH]; simpl; [done|].
  unfold TaskManager.pending_with at 1 3 5.
  apply valid_priority_cases in Hp as [->| [->| ->]]; simpl;
    destruct (Task.completed t); simpl; lia.
Qed.

End TaskInvariant.

Section SortFacts.

Context {A : Type} (key : A → Z).

Lemma stable_insert_Permutation (x : A) (l : list A) :
  stable_insert (key_before key) x l ≡ₚ x :: l.
Proof.
  induction l as [|y l IH]; simpl; [done|].
  destruct (key_before key y x); [|done].
  rewrite IH. apply Permutation_swap.
Qed.

Lemma stable_sort_Permutation (l : list A) : stable_sort (key_before key) l ≡ₚ l.
Proof.
  induction l as [|x l IH]; simpl; [done|].
  by rewrite stable_insert_Permutation, IH.
Qed.

Lemma stable_insert_sorted (x : A) (l : list A) :
  StronglySorted (λ a b, key b ≤ key a) l →
  StronglySorted (λ a b, key b ≤ key a) (stable_insert (key_before key) x l).
Proof.
  induction 1 as [|y l Hl IH Hy]; simpl.
  - repeat constructor.
  - unfold key_before at 1. destruct (Z.ltb_spec (key x) (key y)) as [Hlt|Hge].
    + constructor; [done|].
      rewrite stable_insert_Permutation. constructor; [lia|done].
    + constructor; [by constructor|].
      constructor; [done|].
      eapply Forall_impl; [exact Hy|]. simpl. intros; lia.
Qed.

Lemma stable_sort_sorted (l : list A) :
  StronglySorted (λ a b, key b ≤ key a) (stable_sort (key_before key) l).
Proof.
  induction l as [|x l IH]; simpl; [constructor|].
  by apply stable_insert_sorted.
Qed.

(** Elements with the same key keep their order. *)
Lemma stable_insert_stable (v : Z) (x : A) (l : list A) :
  filter (λ a, key a = v) (stable_insert (key_before key) x l)
  = filter (λ a, key a = v) (x :: l).
Proof.
  induction l as [|y l IH]; simpl; [done|].
  unfold key_before at 1. destruct (Z.ltb_spec (key x) (key y)) as [Hlt|Hge];
    [|done].
  rewrite (filter_cons _ y), IH, !filter_cons.
  destruct (decide (key y = v)), (decide (key x = v)); try done. lia.
Qed.

Lemma stable_sort_stable (v : Z) (l : list A) :
  filter (λ a, key a = v) (stable_sort (key_before key) l)
  = filter (λ a, key a = v) l.
Proof.
  induction l as [|x l IH]; simpl; [done|].
  by rewrite stable_insert_stable, !filter_cons, IH.
Qed.

End SortFacts.

(** X15. Whatever file the [TaskManager] was started from and whatever
    calls followed, [add_task] returns [None] and changes nothing when
    the title is empty once stripped; otherwise it returns the current
    [Task.task_id_counter], which no task of the list has, and appends a
    pending task with that identifier, the stripped title and a priority
    that is one of High, Medium and Low: Medium when the stripped,
    title-cased priority given is none of them. *)
Theorem add_task_outcome (c : Z) (file : option (list Task.dict)) (now0 : Z)
    (cs : list task_call) (title description priority : string) (now : Z) :
  let st := task_run (TaskManager.init c file now0) cs in
  (Str.strip title = EmptyString
   ∧ TaskManager.add_task st title description priority now = (st, None))
  ∨ (Str.strip title ≠ EmptyString
     ∧ ∃ task,
         TaskManager.add_task st title description priority now
         = ({| TaskManager.task_id_counter := TaskManager.task_id_counter st + 1;
               TaskManager.tasks := TaskManager.tasks st ++ [task] |},
            Some (TaskManager.task_id_counter st))
         ∧ TaskManager._find_task st (TaskManager.task_id_counter st) = None
         ∧ TaskManager._find_task
             (fst (TaskManager.add_task st title description priority now))
             (TaskManager.task_id_counter st) = Some task
         ∧ Task.task_id task = TaskManager.task_id_counter st
         ∧ Task.title task = Str.strip title
         ∧ Task.completed task = false
         ∧ (Task.priority task = "High"%string
            ∨ Task.priority task = "Medium"%string
            ∨ Task.priority task = "Low"%string)
         ∧ (TaskManager.valid_priority (Str.title (Str.strip priority)) = false →
            Task.priority task = "Medium"%string)
         ∧ (TaskManager.valid_priority (Str.title (Str.strip priority)) = true →
            Task.priority task = Str.title (Str.strip priority))).
Proof.
  intros st.
  assert (ids_below_counter st) as Hbelow
    by apply ids_below_counter_run, ids_below_counter_init.
  assert (TaskManager._find_task st (TaskManager.task_id_counter st) = None)
    as Hfresh.
  { apply find_in_None. intros (t0 & Heq & Ht0)%list_elem_of_fmap.
    apply (proj1 (Forall_forall _ _) Hbelow) in Ht0. lia. }
  unfold TaskManager.add_task.
  destruct (Str.strip title) as [|ch s] eqn:Ht; simpl; [by left|right].
  split; [done|]. eexists. split; [reflexivity|].
  split; [done|]. unfold TaskManager._find_task in *. simpl.
  rewrite find_in_app, Hfresh. simpl. rewrite Z.eqb_refl.
  split_and!; try done.
  - apply valid_priority_cases.
    by destruct (TaskManager.valid_priority (Str.title (Str.strip priority))) eqn:Hv.
  - by intros ->.
  - by intros ->.
Qed.

(** X16. Whatever file the [TaskManager] was started from and whatever
    calls followed, every task has an identifier below
    [Task.task_id_counter]. Started without a file, the tasks moreover
    have distinct identifiers, a priority among High, Medium and Low, and
    no completion date while pending. *)
Theorem task_ids_unique (c : Z) (now0 : Z) (cs : list task_call) :
  (∀ file : option (list Task.dict),
     let st := task_run (TaskManager.init c file now0) cs in
     Forall (λ task, Task.task_id task < TaskManager.task_id_counter st)
            (TaskManager.tasks st))
  ∧ (let st := task_run (TaskManager.init c None now0) cs in
     NoDup (map Task.task_id (TaskManager.tasks st))
     ∧ Forall (λ task,
                 (Task.priority task = "High"%string
                  ∨ Task.priority task = "Medium"%string
                  ∨ Task.priority task = "Low"%string)
                 ∧ (Task.completed task = false → Task.completed_at task = None))
              (TaskManager.tasks st)).
Proof.
  split.
  - intros file. apply ids_below_counter_run, ids_below_counter_init.
  - destruct (tasks_ok_run cs _ (tasks_ok_init c now0)) as (_ & Hnd & Hok).
    split; [done|]. eapply Forall_impl; [exact Hok|].
    intros task [Hp Hc]. split; [by apply valid_priority_cases|done].
Qed.



(** X18. [delete_task] removes a task only when the identifier is found
    and the answer at the prompt is [yes] once stripped and lower-cased;
    otherwise it returns [False] and changes nothing. When it deletes,
    the list is one shorter, every other identifier finds what it found,
    and, the identifiers being distinct, the deleted one is found no
    more. *)
Theorem delete_task_outcome (st : TaskManager.state) (i : Z) (answer : string) :
  (TaskManager._find_task st i = None →
   TaskManager.delete_task st i answer = (st, false))
  ∧ (Str.lower (Str.strip answer) ≠ "yes"%string →
     TaskManager.delete_task st i answer = (st, false))
  ∧ (is_Some (TaskManager._find_task st i) →
     Str.lower (Str.strip answer) = "yes"%string →
     ∃ st',
       TaskManager.delete_task st i answer = (st', true)
       ∧ S (length (TaskManager.tasks st')) = length (TaskManager.tasks st)
       ∧ (∀ j, j ≠ i →
            TaskManager._find_task st' j = TaskManager._find_task st j)
       ∧ (NoDup (map Task.task_id (TaskManager.tasks st)) →
          TaskManager._find_task st' i = None)).
Proof.
  unfold TaskManager.delete_task. split_and!.
  - by intros ->.
  - intros Hno%String.eqb_neq. rewrite Hno.
    by destruct (TaskManager._find_task st i).
  - intros [task Hfind] Hyes. rewrite Hfind, Hyes. simpl.
    eexists. split; [reflexivity|]. simpl.
    destruct (remove_found_spec _ _ _ Hfind) as (Hlen & Hother & Hgone & _).
    done.
Qed.

(** X19. For a [TaskManager] started without a file, after any calls,
    the numbers of [get_statistics] add up: completed and pending make
    the total, the pending High, Medium and Low tasks make the pending
    ones, and the pending count is the number of tasks that
    [view_pending_tasks] lists. There are no statistics exactly when
    there is no task. *)
Theorem statistics_add_up (c now0 : Z) (cs : list task_call) :
  let st := task_run (TaskManager.init c None now0) cs in
  match TaskManager.get_statistics st with
  | None => TaskManager.tasks st = []
  | Some s =>
      TaskManager.total s = Z.of_nat (length (TaskManager.tasks st))
      ∧ 0 < TaskManager.total s
      ∧ 0 ≤ TaskManager.completed s
      ∧ 0 ≤ TaskManager.pending s
      ∧ TaskManager.completed s + TaskManager.pending s = TaskManager.total s
      ∧ TaskManager.high s + TaskManager.medium s + TaskManager.low s
        = TaskManager.pending s
      ∧ TaskManager.pending s
        = Z.of_nat (length (TaskManager.view_pending_tasks st false))
  end.
Proof.
  intros st.
  destruct (tasks_ok_run cs _ (tasks_ok_init c now0)) as (_ & _ & Hok).
  fold st in Hok. unfold TaskManager.get_statistics, TaskManager.view_pending_tasks.
  pose proof (count_if_bounds Task.completed (TaskManager.tasks st)) as Hb.
  pose proof (count_if_by_priority _ Hok) as Hp.
  pose proof (count_if_pending (TaskManager.tasks st)) as Hpend.
  destruct (TaskManager.tasks st) as [|t ts] eqn:Hts; [done|].
  cbn [TaskManager.total TaskManager.completed TaskManager.pending
       TaskManager.high TaskManager.medium TaskManager.low].
  split_and!; (done || lia).
Qed.

(** X20. With [sort_by_priority], [view_pending_tasks] lists the same
    tasks as without it, all of them pending, by priority value from
    High to Low, and tasks of equal priority value in the order of the
    list. *)
Theorem view_pending_sorted (st : TaskManager.state) :
  TaskManager.view_pending_tasks st true
    ≡ₚ TaskManager.view_pending_tasks st false
  ∧ Forall (λ task, Task.completed task = false ∧ task ∈ TaskManager.tasks st)
           (TaskManager.view_pending_tasks st true)
  ∧ StronglySorted
      (λ t1 t2, Task.get_priority_value t2 ≤ Task.get_priority_value t1)
      (TaskManager.view_pending_tasks st true)
  ∧ (∀ v : Z,
       filter (λ task, Task.get_priority_value task = v)
              (TaskManager.view_pending_tasks st true)
       = filter (λ task, Task.get_priority_value task = v)
                (TaskManager.view_pending_tasks st false)).
Proof.
  unfold TaskManager.view_pending_tasks, TaskManager.higher_priority.
  split_and!.
  - apply stable_sort_Permutation.
  - apply Forall_forall. intros task Ht.
    rewrite stable_sort_Permutation in Ht.
    by apply list_elem_of_filter in Ht.
  - apply stable_sort_sorted.
  - intros v. apply stable_sort_stable.
Qed.

(** X21. Saving and loading. [from_dict] gives back the task [to_dict]
    was built from, and leaves the counter above its identifier, unless
    that identifier is 0: such a task is given the counter's value as a
    new identifier. A [TaskManager] started from the saved dictionaries
    of tasks none of which has identifier 0 holds those tasks again. *)
Theorem to_dict_from_dict (c now : Z) (task : Task.t) :
  (Task.task_id task ≠ 0 →
   Task.from_dict c (Task.to_dict task) now
   = (Z.max c (Task.task_id task + 1), task))
  ∧ (Task.task_id task = 0 →
     Task.from_dict c (Task.to_dict task) now
     = (c + 1,
        {| Task.task_id := c; Task.title := Task.title task;
           Task.description := Task.description task;
           Task.priority := Task.priority task;
           Task.completed := Task.completed task;
           Task.created_at := Task.created_at task;
           Task.completed_at := Task.completed_at task |}))
  ∧ (∀ ts : list Task.t,
       Forall (λ t, Task.task_id t ≠ 0) ts →
       TaskManager.tasks (TaskManager.init c (Some (map Task.to_dict ts)) now)
       = ts).
Proof.
  assert (∀ c t, Task.task_id t ≠ 0 →
            Task.from_dict c (Task.to_dict t) now
            = (Z.max c (Task.task_id t + 1), t)) as Hone.
  { intros c0 t Hid. unfold Task.from_dict, Task.init, Task.to_dict. simpl.
    rewrite (proj2 (Z.eqb_neq _ _) Hid). simpl.
    destruct t as [id ti de pr co cr ca]. simpl in *. f_equal.
    - destruct (Z.leb_spec c0 id); lia.
    - by destruct ca. }
  split_and!.
  - apply Hone.
  - intros Hid. unfold Task.from_dict, Task.init, Task.to_dict. simpl.
    rewrite Hid. simpl. f_equal.
    + destruct (Z.leb_spec (c + 1) c); lia.
    + by destruct (Task.completed_at task).
  - intros ts Hts. unfold TaskManager.init.
    assert (∀ c0, snd (TaskManager.from_dicts c0 (map Task.to_dict ts) now) = ts)
      as Hall.
    { induction Hts as [|t ts Ht Hts IH]; intros c0; [done|].
      cbn [map TaskManager.from_dicts]. rewrite (Hone c0 t Ht).
      specialize (IH (Z.max c0 (Task.task_id t + 1))).
      destruct (TaskManager.from_dicts _ (map Task.to_dict ts) now).
      simpl in *. by rewrite IH. }
    specialize (Hall c).
    by destruct (TaskManager.from_dicts c (map Task.to_dict ts) now).
Qed.

(** * The totals of the views *)

Section SumFacts.

Context {K : Type} `{Countable K} {V : Type}.

Implicit Types (f g h : V → Z) (m : gmap K V).

Lemma map_sum_empty f : map_sum f (∅ : gmap K V) = 0.
Proof. unfold map_sum. by rewrite map_fold_empty. Qed.

Lemma map_sum_insert_fresh f m k v :
  m !! k = None → map_sum f (<[k := v]> m) = f v + map_sum f m.
Proof.
  intros Hk. unfold map_sum. rewrite map_fold_insert_L; [done| |done].
  intros. lia.
Qed.

Lemma map_sum_delete f m k v :
  m !! k = Some v → map_sum f m = f v + map_sum f (delete k m).
Proof.
  intros Hk. unfold map_sum. rewrite (map_fold_delete_L _ _ k v); [done| |done].
  intros. lia.
Qed.

Lemma map_sum_insert_existing f m k v v' :
  m !! k = Some v → map_sum f (<[k := v']> m) = map_sum f m - f v + f v'.
Proof.
  intros Hk. rewrite <- insert_delete_eq.
  rewrite map_sum_insert_fresh by apply lookup_delete_eq.
  rewrite (map_sum_delete f m k v Hk). lia.
Qed.

Lemma map_sum_split f g h m :
  (∀ k v, m !! k = Some v → f v = g v + h v) →
  map_sum f m = map_sum g m + map_sum h m.
Proof.
  induction m as [|k v m Hk IH] using map_ind; intros Hall.
  - by rewrite !map_sum_empty.
  - rewrite !map_sum_insert_fresh by done.
    rewrite (Hall k v) by apply lookup_insert_eq.
    rewrite IH; [lia|]. intros k' v' Hk'. apply (Hall k').
    rewrite lookup_insert_ne; [done|]. intros ->. congruence.
Qed.

Lemma map_sum_bounds f m (lo hi : Z) :
  (∀ k v, m !! k = Some v → lo ≤ f v ≤ hi) →
  lo * Z.of_nat (size m) ≤ map_sum f m ≤ hi * Z.of_nat (size m).
Proof.
  induction m as [|k v m Hk IH] using map_ind; intros Hall.
  - rewrite map_sum_empty, map_size_empty. lia.
  - rewrite map_sum_insert_fresh, map_size_insert_None by done.
    pose proof (Hall k v (lookup_insert_eq _ _ _)).
    assert (lo * Z.of_nat (size m) ≤ map_sum f m ≤ hi * Z.of_nat (size m)).
    { apply IH. intros k' v' Hk'. apply (Hall k').
      rewrite lookup_insert_ne; [done|]. intros ->. congruence. }
    lia.
Qed.

End SumFacts.

Section TotalsFacts.

Implicit Types (st : Library.state) (b m now : Z).

Lemma loans_balance_step st c :
  ledger_inv st → loans_balance st → loans_balance (step st c).
Proof.
  intros Hinv. pose proof Hinv as [I1 I2 _ _ I5].
  unfold loans_balance, LibraryViews.total_issued_books. intros Hbal.
  destruct c as [t a i n|nm em|b m now|b m now]; simpl.
  - unfold Library.add_book. destruct (n <=? 0); simpl; [done|].
    destruct (Library.isbn_index (Library.self st) !! Str.strip i) as [e|]; simpl.
    + destruct (Library.books (Library.self st) !! e) as [bk|] eqn:He; simpl;
        [|done].
      rewrite (map_sum_insert_existing _ _ _ bk) by done. simpl. lia.
    + rewrite map_sum_insert_fresh; [simpl; rewrite map_size_empty; lia|].
      destruct (Library.books (Library.self st) !! Library.book_id_counter st)
        as [bk|] eqn:Hb; [|done].
      apply I1 in Hb. lia.
  - unfold Library.register_member. destruct (_ || _); simpl; [done|].
    rewrite map_sum_insert_fresh; [simpl; lia|].
    destruct (Library.members (Library.self st) !! Library.member_id_counter st)
      as [mem|] eqn:Hm; [|done].
    apply I2 in Hm. lia.
  - destruct (Library.issue_book st b m now) as [st' o] eqn:Hi. simpl.
    destruct o; try (by rewrite (Library_issue_book_failure _ _ _ _ _ _ Hi)).
    apply Library_issue_book_success in Hi
      as (bk & mem & bk' & Hb & Hm & Hbi & -> & -> & _).
    apply issue_book_success in Hbi as (_ & Hnone & _ & Hto & _).
    rewrite (map_sum_insert_existing _ _ _ bk) by done.
    rewrite (map_sum_insert_existing _ _ _ mem) by done.
    rewrite Hto, map_size_insert_None by done. simpl.
    rewrite length_app. simpl. lia.
  - destruct (Library.return_book st b m now) as [st' o] eqn:Hr. simpl.
    destruct o; try (by rewrite (Library_return_book_failure _ _ _ _ _ _ Hr)).
    apply Library_return_book_success in Hr
      as (bk & mem & bk' & mem' & Hb & Hm & Hbr & -> & -> & Hbor & _).
    apply return_book_inv_success in Hbr as ([r Hr] & Hto & _).
    rewrite (map_sum_insert_existing _ _ _ bk) by done.
    rewrite (map_sum_insert_existing _ _ _ mem) by done.
    rewrite Hto, map_size_delete_Some, Hbor by eauto.
    assert (size (Book.issued_to bk) ≠ 0%nat) as Hne.
    { intros He%map_size_empty_inv. by rewrite He, lookup_empty in Hr. }
    assert (b ∈ Member.borrowed_books mem) as Hin.
    { apply list_count_elem_of. specialize (I5 b m). revert I5.
      unfold borrowed, has_loan. rewrite Hb, Hm, Hr. lia. }
    assert (S (length (list_remove b (Member.borrowed_books mem)))
            = length (Member.borrowed_books mem)) as Hlen.
    { clear -Hin. induction (Member.borrowed_books mem) as [|y l IH]; simpl.
      - by apply elem_of_nil in Hin.
      - destruct (decide (y = b)); [done|]. simpl.
        apply elem_of_cons in Hin as [->|Hin]; [done|]. by rewrite IH. }
    lia.
Qed.

Lemma loans_balance_reachable bc mc nm cs :
  loans_balance (run (Library.init bc mc nm) cs).
Proof.
  assert (∀ st, ledger_inv st → loans_balance st → loans_balance (run st cs))
    as Hrun.
  { induction cs as [|c cs IH]; intros st Hinv Hbal; simpl; [done|].
    apply IH; [by apply ledger_inv_step | by apply loans_balance_step]. }
  apply Hrun; [apply ledger_inv_init|].
  unfold loans_balance, LibraryViews.total_issued_books. simpl.
  by rewrite !map_sum_empty.
Qed.

End TotalsFacts.

(** X22. The totals of the views agree. In every state the Library
    reaches, the total of copies that [view_all_books] prints is the
    copies on the shelves plus the number of issued books that
    [view_issued_books] prints; that number is the sum over the members
    of the "Books Issued" of [view_member_info]; there is at least one
    copy for each book; and the number of available books that
    [view_available_books] prints is at most the number of books. *)
Theorem view_totals_agree (bc mc : Z) (nm : string) (cs : list call) :
  let st := run (Library.init bc mc nm) cs in
  LibraryViews.total_copies_sum st
  = map_sum Book.available_copies (Library.books (Library.self st))
    + LibraryViews.total_issued_books st
  ∧ LibraryViews.total_issued_books st
    = map_sum (λ mem, Z.of_nat (length (Member.borrowed_books mem)))
              (Library.members (Library.self st))
  ∧ Z.of_nat (LibraryViews.total_books st) ≤ LibraryViews.total_copies_sum st
  ∧ 0 ≤ LibraryViews.total_available_books st
      ≤ Z.of_nat (LibraryViews.total_books st).
Proof.
  intros st.
  pose proof (ledger_inv_reachable bc mc nm cs) as Hinv. fold st in Hinv.
  pose proof (catalog_wf_reachable bc mc nm cs) as Hwf. fold st in Hwf.
  split; [|split; [|split]].
  - apply map_sum_split. intros b bk Hb.
    destruct (inv_copies _ Hinv _ _ Hb) as [Heq _]. lia.
  - apply loans_balance_reachable.
  - unfold LibraryViews.total_copies_sum, LibraryViews.total_books.
    assert (∀ f (m : gmap Z Book.t),
              (∀ k v, m !! k = Some v → 1 ≤ f v) →
              Z.of_nat (size m) ≤ map_sum f m) as Hlow.
    { clear. intros f m. induction m as [|k v m Hk IH] using map_ind; intros Hall.
      - rewrite map_sum_empty, map_size_empty. lia.
      - rewrite map_sum_insert_fresh, map_size_insert_None by done.
        pose proof (Hall k v (lookup_insert_eq _ _ _)).
        assert (Z.of_nat (size m) ≤ map_sum f m).
        { apply IH. intros k' v' Hk'. apply (Hall k').
          rewrite lookup_insert_ne; [done|]. intros ->. congruence. }
        lia. }
    apply Hlow. intros b bk Hbk. by apply (wf_total _ Hwf b).
  - unfold LibraryViews.total_available_books, LibraryViews.total_books.
    pose proof (map_sum_bounds (λ book, if Book.is_available book then 1 else 0)
                  (Library.books (Library.self st)) 0 1) as Hb.
    assert (∀ (k : Z) (v : Book.t),
              Library.books (Library.self st) !! k = Some v →
              0 ≤ (if Book.is_available v then 1 else 0) ≤ 1) as Hall.
    { intros k v _. destruct (Book.is_available v); lia. }
    specialize (Hb Hall). lia.
Qed.

(** * The To Do App on examples *)

(** Priorities are normalised, the pending view leaves out the completed
    task and orders the rest from High to Low, keeping the order of the
    list among equals. *)
Example view_pending_example :
  let st := task_run (TaskManager.init 1 None 0)
                     [AddTask "water plants" "" "low" 1;
                      AddTask "file taxes" "" " HIGH " 2;
                      AddTask "call bob" "" "soon" 3;
                      AddTask "pay rent" "" "High" 4;
                      AddTask "book flight" "" "high" 5;
                      MarkCompleted 4 6] in
  map (λ t, (Task.task_id t, Task.priority t))
      (TaskManager.view_pending_tasks st true)
  = [(2, "High"); (5, "High"); (3, "Medium"); (1, "Low")]%string.
Proof. reflexivity. Qed.

(** A save file may hold the same identifier twice: [delete_task] then
    removes the first of the two and the identifier is still found. *)
Example delete_with_duplicate_ids :
  let d title := {| Task.d_task_id := 5; Task.d_title := title;
                    Task.d_description := ""; Task.d_priority := "Low";
                    Task.d_completed := false; Task.d_created_at := 0;
                    Task.d_completed_at := None |} in
  let st := TaskManager.init 1 (Some [d "first"; d "second"]) 9 in
  TaskManager.task_id_counter st = 6
  ∧ snd (TaskManager.delete_task st 5 " Yes ") = true
  ∧ Task.title <$> TaskManager._find_task
                     (fst (TaskManager.delete_task st 5 " Yes ")) 5
    = Some "second"%string.
Proof. split_and!; reflexivity. Qed.
